(** * Theia: generator, registry client, container wiring, editor provider
      and installer

    A shallow embedding of the parts of the Theia sources that the
    specification talks about, followed by their properties:

    - [Webpack]: the yeoman [WebpackGenerator] (the template of
      [webpack.config.js] and its guarded write);
    - [Npm]: the registry client [view] (URL, headers, fate of the promise);
    - [Js]: property values and promises;
    - [Inversify]: the dependency-injection container that the wiring
      modules are written against;
    - [Problem]: [createProblemTreeContainer];
    - [Monaco]: the monaco frontend [ContainerModule];
    - [EditorProvider]: [MonacoEditorProvider.get];
    - [AppProject]: the installation run that the installer test drives.

    Strings are [string]s of bytes; a JavaScript object used as a dictionary
    is a [gmap] keyed by [string]; a mutable object that others refer to
    lives in a store. *)

From Stdlib Require Import Ascii.
From stdpp Require Import gmap strings list pretty.

(** ** Strings *)

Module Str.

(** The double quote and the line feed, as one-character strings. *)
Definition dq : string := String (Ascii.ascii_of_nat 34) EmptyString.
Definition nl : string := String (Ascii.ascii_of_nat 10) EmptyString.

(** [lines] joins the lines of a multi-line literal with line feeds, the
    way the text between two back-quotes reads. *)
Fixpoint lines (ls : list string) : string :=
  match ls with
  | [] => ""
  | [l] => l
  | l :: ls' => l +:+ nl +:+ lines ls'
  end.

Fixpoint concat (ls : list string) : string :=
  match ls with
  | [] => ""
  | l :: ls' => l +:+ concat ls'
  end.

Fixpoint prefixb (p s : string) : bool :=
  match p, s with
  | EmptyString, _ => true
  | String _ _, EmptyString => false
  | String a p', String b s' => if Ascii.eqb a b then prefixb p' s' else false
  end.

(** [infixb n s]: the text [n] occurs somewhere in [s]. *)
Fixpoint infixb (n s : string) : bool :=
  prefixb n s ||
  match s with
  | EmptyString => false
  | String _ s' => infixb n s'
  end.

(** [s] without its last, respectively first, [n] characters. *)
Definition drop_end (n : nat) (s : string) : string :=
  String.substring 0 (String.length s - n) s.
Definition drop_start (n : nat) (s : string) : string :=
  String.substring n (String.length s - n) s.

(** The propositional reading of [infixb]. *)
Definition occurs_in (n s : string) : Prop :=
  exists pre post, s = pre +:+ n +:+ post.

End Str.

(** ** The webpack configuration generator

    [WebpackGenerator] extends [AbstractGenerator]; of the base class the
    generator uses [compileCopyright()], [node_modulesPath()],
    [model.target], [ifWeb] and [ifElectron]. *)

Module Webpack.
Import Str.

(** The generator model, as far as [WebpackGenerator] reads it. *)
Record Model := {
  compileCopyright : string;   (* this.compileCopyright() *)
  node_modulesPath : string;   (* this.node_modulesPath() *)
  target : string;             (* this.model.target *)
  isWeb : bool;                (* generating for the browser *)
  isElectron : bool            (* generating for Electron *)
}.

(** Modelled from the spec: [ifWeb] and [ifElectron] of the generator model
    (`../common`, not among the sources) select their first argument when
    generating for that target and the default otherwise; the default of
    the default is the empty text. *)
Definition ifWeb {A} (m : Model) (value defaultValue : A) : A :=
  if isWeb m then value else defaultValue.
Definition ifElectron {A} (m : Model) (value defaultValue : A) : A :=
  if isElectron m then value else defaultValue.

(** A template literal is a sequence of literal chunks and substitutions.
    The substitutions that occur in [compileWebpackConfig] are the three
    model values and the two conditionals whose arguments are again
    template literals (without further conditionals). *)
Inductive atom :=
  | Text (s : string)
  | CompileCopyright
  | NodeModulesPath
  | ModelTarget.

Inductive frag :=
  | Plain (a : atom)
  | IfWeb (value defaultValue : list atom)
  | IfElectron (value defaultValue : list atom).

Definition render_atom (m : Model) (a : atom) : string :=
  match a with
  | Text s => s
  | CompileCopyright => compileCopyright m
  | NodeModulesPath => node_modulesPath m
  | ModelTarget => target m
  end.

Definition render_atoms (m : Model) (l : list atom) : string :=
  concat (map (render_atom m) l).

(** The atoms a fragment contributes for the model [m]. *)
Definition select (m : Model) (f : frag) : list atom :=
  match f with
  | Plain a => [a]
  | IfWeb v d => ifWeb m v d
  | IfElectron v d => ifElectron m v d
  end.

Definition render (m : Model) (t : list frag) : string :=
  concat (map (fun f => render_atoms m (select m f)) t).

(** The literal chunks of the template that reach the output. *)
Definition atom_text (a : atom) : list string :=
  match a with Text s => [s] | _ => [] end.

Definition emitted (m : Model) (t : list frag) : list string :=
  flat_map (fun f => flat_map atom_text (select m f)) t.

(** The chunks of the template, in the order of the source. *)

Definition requirePath_and_port : list atom :=
  [ Text (lines [
      "";
      "const requirePath = '" ]);
    NodeModulesPath;
    Text (lines [
      "/requirejs/require.js';";
      "";
      "const port = require('yargs').argv.port || 3000;" ]) ].

Definition node_electron : list atom :=
  [ Text (lines [
      "";
      "        __dirname: false,";
      "        __filename: false" ]) ].

Definition node_empty : list atom :=
  [ Text (lines [
      "";
      "        fs: 'empty',";
      "        child_process: 'empty',";
      "        net: 'empty',";
      "        crypto: 'empty'" ]) ].

Definition requirePath_copy : list atom :=
  [ Text (lines [
      "";
      "            {";
      "                from: requirePath,";
      "                to: '.'";
      "            }," ]) ].

Definition devServer : list atom :=
  [ Text (lines [
      ",";
      "    devServer: {";
      "        inline: true,";
      "        hot: true,";
      "        proxy: {";
      "            '/services/*': {";
      "                target: 'ws://localhost:' + port,";
      "                ws: true";
      "            },";
      "            '*': 'http://localhost:' + port,";
      "        },";
      "        historyApiFallback: true,";
      "        stats: {";
      "            colors: true,";
      "            warnings: false";
      "        },";
      "        host: process.env.HOST,";
      "        port: process.env.PORT";
      "    }" ]) ].

Definition webpack_config_template : list frag :=
  [ Plain CompileCopyright;
    Plain (Text (lines [
      "";
      "// @ts-check";
      "const path = require('path');";
      "const webpack = require('webpack');";
      "const CopyWebpackPlugin = require('copy-webpack-plugin');";
      "const CircularDependencyPlugin = require('circular-dependency-plugin');";
      "";
      "const outputPath = path.resolve(__dirname, 'lib');";
      "";
      "const monacoEditorPath = '" ]));
    Plain NodeModulesPath;
    Plain (Text (lines [
      "/monaco-editor-core/min/vs';";
      "const monacoLanguagesPath = '" ]));
    Plain NodeModulesPath;
    Plain (Text (lines [
      "/monaco-languages/release';";
      "const monacoCssLanguagePath = '" ]));
    Plain NodeModulesPath;
    Plain (Text (lines [
      "/monaco-css/release/min';";
      "const monacoJsonLanguagePath = '" ]));
    Plain NodeModulesPath;
    Plain (Text (lines [
      "/monaco-json/release/min';";
      "const monacoHtmlLanguagePath = '" ]));
    Plain NodeModulesPath;
    Plain (Text "/monaco-html/release/min';");
    IfWeb requirePath_and_port [];
    Plain (Text (lines [
      "";
      "";
      "module.exports = {";
      "    entry: path.resolve(__dirname, 'src-gen/frontend/index.js'),";
      "    output: {";
      "        filename: 'bundle.js',";
      "        path: outputPath";
      "    },";
      "    target: '" ]));
    Plain ModelTarget;
    Plain (Text (lines [
      "',";
      "    node: {" ]));
    IfElectron node_electron node_empty;
    Plain (Text (lines [
      "";
      "    },";
      "    module: {";
      "        rules: [";
      "            {";
      "                test: /\.css$/,";
      "                loader: 'style-loader!css-loader'";
      "            },";
      "            {";
      "                test: /\.(ttf|eot|svg)(\?v=\d+\.\d+\.\d+)?$/,";
      "                loader: 'url-loader?limit=10000&mimetype=image/svg+xml'";
      "            },";
      "            {";
      "                test: /\.js$/,";
      "                enforce: 'pre',";
      "                loader: 'source-map-loader'";
      "            },";
      "            {";
      "                test: /\.woff(2)?(\?v=[0-9]\.[0-9]\.[0-9])?$/,";
      "                loader: " +:+ dq +:+
        "url-loader?limit=10000&mimetype=application/font-woff" +:+ dq;
      "            }";
      "        ],";
      "        noParse: /vscode-languageserver-types|vscode-uri/";
      "    },";
      "    resolve: {";
      "        extensions: ['.js'],";
      "        alias: {";
      "            'vs': path.resolve(outputPath, monacoEditorPath)";
      "        }";
      "    },";
      "    devtool: 'source-map',";
      "    plugins: [";
      "        new webpack.HotModuleReplacementPlugin(),";
      "        new CopyWebpackPlugin([" ]));
    IfWeb requirePath_copy [];
    Plain (Text (lines [
      "";
      "            {";
      "                from: monacoEditorPath,";
      "                to: 'vs'";
      "            },";
      "            {";
      "                from: monacoLanguagesPath,";
      "                to: 'vs/basic-languages'";
      "            },";
      "            {";
      "                from: monacoCssLanguagePath,";
      "                to: 'vs/language/css'";
      "            },";
      "            {";
      "                from: monacoJsonLanguagePath,";
      "                to: 'vs/language/json'";
      "            },";
      "            {";
      "                from: monacoHtmlLanguagePath,";
      "                to: 'vs/language/html'";
      "            }";
      "        ]),";
      "        new CircularDependencyPlugin({";
      "            exclude: /(node_modules|examples)\/./,";
      "            failOnError: false // https://github.com/nodejs/readable-stream/issues/280#issuecomment-297076462";
      "        })";
      "    ],";
      "    stats: {";
      "        warnings: true";
      "    }" ]));
    IfWeb devServer [];
    Plain (Text (lines [
      "";
      "};" ])) ].

Definition compileWebpackConfig (m : Model) : string :=
  render m webpack_config_template.

(** [Base.MemFsEditor]: the in-memory file system of the generator run,
    a dictionary from path to content. *)
Definition MemFsEditor := gmap string string.

Definition fs_exists (fs : gmap string string) (path : string) : bool :=
  bool_decide (is_Some (fs !! path)).

Definition fs_write (fs : gmap string string) (path contents : string)
  : gmap string string :=
  <[path := contents]> fs.

Definition generate (m : Model) (fs : gmap string string) : gmap string string :=
  if negb (fs_exists fs "webpack.config.js")
  then fs_write fs "webpack.config.js" (compileWebpackConfig m)
  else fs.


(** The texts the configuration is inspected for. *)

Definition target_field (m : Model) : string :=
  "    target: '" +:+ target m +:+ "',".

Definition port_constant : string :=
  "const port = require('yargs').argv.port || 3000;".

Definition requirejs_copy_rule : string :=
  lines [
    "            {";
    "                from: requirePath,";
    "                to: '.'";
    "            }," ].

Definition devServer_block : string :=
  lines [
    "    devServer: {";
    "        inline: true,";
    "        hot: true,";
    "        proxy: {";
    "            '/services/*': {";
    "                target: 'ws://localhost:' + port,";
    "                ws: true";
    "            }," ].

Definition node_stanza_electron : string :=
  lines [
    "        __dirname: false,";
    "        __filename: false" ].

Definition node_stanza_empty : string :=
  lines [
    "        fs: 'empty',";
    "        child_process: 'empty',";
    "        net: 'empty',";
    "        crypto: 'empty'" ].

(** [emits m n]: the text [n] is part of a literal chunk of the template
    that is rendered for [m]; [omits m n] and [not_rendered m n]: no
    rendered chunk has it. *)
Definition not_rendered (m : Model) (n : string) : Prop :=
  forall chunk, chunk ∈ emitted m webpack_config_template -> ~ occurs_in n chunk.
Definition emits (m : Model) (n : string) : bool :=
  existsb (infixb n) (emitted m webpack_config_template).
Definition omits (m : Model) (n : string) : bool :=
  forallb (fun chunk => negb (infixb n chunk)) (emitted m webpack_config_template).

(** The five monaco locations that every configuration declares, by
    constant and by path below the node_modules directory. *)
Definition monaco_paths : list (string * string) :=
  [ ("monacoEditorPath", "/monaco-editor-core/min/vs");
    ("monacoLanguagesPath", "/monaco-languages/release");
    ("monacoCssLanguagePath", "/monaco-css/release/min");
    ("monacoJsonLanguagePath", "/monaco-json/release/min");
    ("monacoHtmlLanguagePath", "/monaco-html/release/min") ].

Definition path_constant (m : Model) (name path : string) : string :=
  "const " +:+ name +:+ " = '" +:+ node_modulesPath m +:+ path +:+ "';".

End Webpack.

(** ** The npm registry client

    [view] asks the registry for the metadata of one package. A package
    name is held as the bytes of its UTF-8 encoding, which is what
    [encodeURIComponent] escapes; the status code is a natural number. *)

Module Npm.
Import Str.

(** [encodeURIComponent]: letters, digits and [- _ . ! ~ * ' ( )] stay,
    every other byte becomes [%XX] with upper-case hexadecimal digits. *)
Definition uriUnescaped (c : Ascii.ascii) : bool :=
  let n := Ascii.N_of_ascii c in
  ((65 <=? n) && (n <=? 90))%N || ((97 <=? n) && (n <=? 122))%N ||
  ((48 <=? n) && (n <=? 57))%N ||
  bool_decide (c ∈ ["-"; "_"; "."; "!"; "~"; "*"; "'"; "("; ")"]%char).

Definition hex_digit (n : N) : Ascii.ascii :=
  match n with
  | 0 => "0" | 1 => "1" | 2 => "2" | 3 => "3" | 4 => "4" | 5 => "5"
  | 6 => "6" | 7 => "7" | 8 => "8" | 9 => "9" | 10 => "A" | 11 => "B"
  | 12 => "C" | 13 => "D" | 14 => "E" | _ => "F"
  end%N%char.

Definition percent_encode (c : Ascii.ascii) : string :=
  let n := Ascii.N_of_ascii c in
  String "%" (String (hex_digit (n / 16)) (String (hex_digit (n mod 16)) "")).

Fixpoint encodeURIComponent (s : string) : string :=
  match s with
  | EmptyString => ""
  | String c s' =>
      (if uriUnescaped c then String c "" else percent_encode c)
      +:+ encodeURIComponent s'
  end.

Record ViewParam := {
  name : string;
  abbreviated : option bool     (* [None]: the field is undefined *)
}.

(** What [view] hands to [request]. *)
Record RequestOptions := {
  url : string;
  headers : gmap string string
}.

Definition abbreviated_accept : string :=
  "application/vnd.npm.install-v1+json; q=1.0, application/json; q=0.8, */*".

Definition view_url (param : ViewParam) : string :=
  let url := "https://registry.npmjs.org/" in
  match name param with
  | String "@" rest => url +:+ "@" +:+ encodeURIComponent rest
  | n => url +:+ encodeURIComponent n
  end.

Definition view_headers (param : ViewParam) : gmap string string :=
  let headers : gmap string string := ∅ in
  match abbreviated param with
  | None | Some true => <["Accept" := abbreviated_accept]> headers
  | Some false => headers
  end.

Definition view_request (param : ViewParam) : RequestOptions :=
  {| url := view_url param; headers := view_headers param |}.

(** The response object, as far as the callback reads it. *)
Record Response := {
  statusCode : N;
  statusMessage : string
}.

Section View.
(** [JSON.parse] is the platform's: it returns the parsed value or throws
    a [SyntaxError] ([None]). [Err] is the type of the error objects that
    [request] reports. *)
Context {Json Err : Type}.
Variable JSON_parse : string -> option Json.

Inductive reason :=
  | RequestError (err : Err)          (* reject(err) *)
  | Error (message : string).         (* reject(new Error(message)) *)

(** What one run of the callback of [request] does to the promise that
    [view] returned. [Thrown]: the callback raised an exception before it
    called [resolve] or [reject]; the promise stays pending. *)
Inductive outcome :=
  | Resolved (data : Json)
  | Rejected (r : reason)
  | Thrown.

Definition status_error (response : Response) (url : string) : string :=
  pretty (statusCode response) +:+ ": " +:+ statusMessage response
  +:+ " for " +:+ url.

(** The callback [(err, response, body) => ...] of [view]. *)
Definition view_callback (url : string)
    (err : option Err) (response : Response) (body : string) : outcome :=
  match err with
  | Some e => Rejected (RequestError e)
  | None =>
      if negb (statusCode response =? 200)%N
      then Rejected (Error (status_error response url))
      else match JSON_parse body with
           | Some data => Resolved data
           | None => Thrown
           end
  end.

(** [view]: the request issued and, from the arguments the callback is
    run with, the fate of the returned promise. *)
Definition view (param : ViewParam)
    (err : option Err) (response : Response) (body : string) : outcome :=
  view_callback (url (view_request param)) err response body.
End View.

(** A parser of the JSON literals [true], [false] and [null] only, to run
    [view] on concrete bodies. *)
Definition parse_literal (body : string) : option (option bool) :=
  if String.eqb body "true" then Some (Some true)
  else if String.eqb body "false" then Some (Some false)
  else if String.eqb body "null" then Some None
  else None.

(** The value of a hexadecimal digit, to read an escape back. *)
Definition hex_value (c : Ascii.ascii) : N :=
  let n := Ascii.N_of_ascii c in
  if (n <? 58)%N then (n - 48)%N else (n - 55)%N.

(** The characters of a string. *)
Fixpoint chars (s : string) : list Ascii.ascii :=
  match s with
  | EmptyString => []
  | String c s' => c :: chars s'
  end.

(** A parsed JSON value. *)
#[warnings="-register-all"]
Inductive json :=
  | JNull
  | JBool (b : bool)
  | JNum (n : Z)
  | JStr (s : string)
  | JArr (items : list json)
  | JObj (members : list (string * json)).   (* in the order of the text *)

Inductive TypeError := CannotReadProperty (key : string).

(** [value[key]] for a key that is neither an index nor a member of a
    prototype: reading from [null] or [undefined] ([None]) throws, an object
    gives its member (the last one of that name) or [undefined], any other
    value gives [undefined]. *)
Fixpoint last_member (members : list (string * json)) (key : string)
  : option json :=
  match members with
  | [] => None
  | (k, v) :: members' =>
      match last_member members' key with
      | Some later => Some later
      | None => if String.eqb k key then Some v else None
      end
  end.

Definition member (value : option json) (key : string)
  : TypeError + option json :=
  match value with
  | None | Some JNull => inl (CannotReadProperty key)
  | Some (JObj members) => inr (last_member members key)
  | Some _ => inr None
  end.

Section Version.
Context {Err : Type}.
Variable JSON_parse : string -> option json.

(** What becomes of the promise that [version] returned. *)
Inductive version_outcome :=
  | VersionResolved (latest : option json)
  | VersionRejected (r : reason (Err := Err))
  | VersionTypeError (e : TypeError)   (* the [then] callback threw *)
  | VersionPending.                    (* the promise of [view] never settled *)

(** [view({ name }).then(result => result['dist-tags']['latest'])] *)
Definition version (name : string)
    (err : option Err) (response : Response) (body : string)
  : version_outcome :=
  match view JSON_parse {| name := name; abbreviated := None |}
             err response body with
  | Resolved result =>
      match member (Some result) "dist-tags" with
      | inl e => VersionTypeError e
      | inr tags =>
          match member tags "latest" with
          | inl e => VersionTypeError e
          | inr latest => VersionResolved latest
          end
      end
  | Rejected r => VersionRejected r
  | Thrown => VersionPending
  end.

End Version.

End Npm.

(** ** JavaScript values *)

Module Js.

(** The property values of the objects that occur: strings, numbers and
    arrays of strings. *)
Inductive jsval :=
  | JString (s : string)
  | JNumber (n : Z)
  | JStrings (l : list string).

(** A promise is pending until it is settled, once. *)
Inductive promise (A : Type) :=
  | Pending
  | Fulfilled (a : A)
  | Rejected (reason : string).
Arguments Pending {A}.
Arguments Fulfilled {A} a.
Arguments Rejected {A} reason.

Definition settle {A} (p : promise A) (outcome : promise A) : promise A :=
  match p with
  | Pending => outcome
  | _ => p
  end.

(** [Promise.all([p, q])] *)
Definition Promise_all {A B} (p : promise A) (q : promise B) : promise (A * B) :=
  match p, q with
  | Rejected e, _ => Rejected e
  | _, Rejected e => Rejected e
  | Fulfilled a, Fulfilled b => Fulfilled (a, b)
  | _, _ => Pending
  end.

(** [p.then(f)] for a callback that returns a value. *)
Definition then_ {A B} (p : promise A) (f : A -> B) : promise B :=
  match p with
  | Pending => Pending
  | Fulfilled a => Fulfilled (f a)
  | Rejected e => Rejected e
  end.

End Js.

(** ** The dependency-injection container

    The wiring modules use the inversify container through [bind],
    [unbind], [rebind] and [get], with the targets [toSelf]/[to],
    [toDynamicValue(ctx => ctx.container.get(X))], [toConstantValue],
    [toAutoFactory] and [toProvider], and the scopes singleton and
    transient. Containers are mutable objects that refer to their parent:
    they live in a store and are named by their address. A service
    identifier (a class or a symbol) is named by its source identifier.

    The constructors of the bound classes are declared in files outside
    this development: an instance is its class and a fresh identity. *)

Module Inversify.
Export Js.

Inductive scope := Transient | Singleton.

Inductive value :=
  | Instance (class : string) (identity : nat)
  | Constant (object : gmap string jsval)
  | Factory (container : nat) (serviceIdentifier : string)
      (* () => context.container.get(serviceIdentifier) *)
  | Provider (container : nat) (serviceIdentifier : string).
      (* uri => context.container.get(serviceIdentifier).get(uri) *)

Inductive implementation :=
  | ToClass (class : string)                     (* to(C), toSelf() *)
  | ToDynamicValue (serviceIdentifier : string)  (* ctx => ctx.container.get(X) *)
  | ToConstantValue (object : gmap string jsval)
  | ToAutoFactory (serviceIdentifier : string)
  | ToProvider (serviceIdentifier : string).

Record binding := {
  target : implementation;
  inScope : scope;
  cache : option value        (* set once a singleton has been activated *)
}.

Record container := {
  parent : option nat;
  defaultScope : scope;
  bindings : gmap string (list binding)   (* the binding dictionary *)
}.

Record store := {
  containers : gmap nat container;
  next_identity : nat
}.

Inductive error :=
  | CannotUnbind (serviceIdentifier : string)
  | NoMatchingBindings (serviceIdentifier : string)
  | AmbiguousMatch (serviceIdentifier : string)
  | NotAContainer (address : nat)
  | NotAFactory
  | StackOverflow.

Inductive result (A : Type) :=
  | Ok (a : A)
  | Err (e : error).
Arguments Ok {A} a.
Arguments Err {A} e.

(** Container operations read and write the store and may throw. *)
Definition M (A : Type) : Type := store -> result (A * store).

#[global] Instance M_ret : MRet M := fun A a s => Ok (a, s).
#[global] Instance M_bind : MBind M := fun A B k m s =>
  match m s with
  | Ok (a, s') => k a s'
  | Err e => Err e
  end.
Definition throw {A} (e : error) : M A := fun _ => Err e.

Definition with_bindings (c : nat)
    (f : gmap string (list binding) -> gmap string (list binding))
    (s : store) : store :=
  {| containers :=
       alter (fun cc => {| parent := parent cc; defaultScope := defaultScope cc;
                           bindings := f (bindings cc) |}) c (containers s);
     next_identity := next_identity s |}.

(** The bindings a container holds itself for a service identifier. *)
Definition own (s : store) (c : nat) (x : string) : option (list binding) :=
  cc ← containers s !! c; bindings cc !! x.

(** [new Container({ defaultScope })] with [child.parent = parent]. *)
Definition createContainer (p : option nat) (d : scope) : M nat := fun s =>
  let c := fresh (dom (containers s)) in
  Ok (c, {| containers :=
              <[c := {| parent := p; defaultScope := d; bindings := ∅ |}]>
                (containers s);
            next_identity := next_identity s |}).

(** [c.bind(x).to...().in...Scope()]: a further binding for [x]; without a
    scope call the container's default scope applies. *)
Definition bind (c : nat) (x : string) (t : implementation)
    (sc : option scope) : M unit := fun s =>
  match containers s !! c with
  | None => Err (NotAContainer c)
  | Some cc =>
      let b := {| target := t; inScope := default (defaultScope cc) sc;
                  cache := None |} in
      Ok (tt, with_bindings c
                (fun bs => <[x := default [] (bs !! x) ++ [b]]> bs) s)
  end.

(** [c.unbind(x)] removes all bindings of [x] and throws when there is
    none. *)
Definition unbind (c : nat) (x : string) : M unit := fun s =>
  match own s c x with
  | None => Err (CannotUnbind x)
  | Some _ => Ok (tt, with_bindings c (delete x) s)
  end.

(** [c.rebind(x)] is [c.unbind(x)] followed by [c.bind(x)]. *)
Definition rebind (c : nat) (x : string) (t : implementation)
    (sc : option scope) : M unit :=
  unbind c x;; bind c x t sc.

(** The bindings that answer a request for [x] made on [c]: those of [c],
    or else those of the nearest ancestor that has any, with the container
    that holds them. *)
Fixpoint getBindings (depth : nat) (s : store) (c : nat) (x : string)
  : option (nat * list binding) :=
  match containers s !! c with
  | None => None
  | Some cc =>
      match bindings cc !! x with
      | Some l => Some (c, l)
      | None =>
          match parent cc, depth with
          | Some p, S d => getBindings d s p x
          | _, _ => None
          end
      end
  end.

Definition set_cached (v : value) (b : binding) : binding :=
  {| target := target b; inScope := inScope b; cache := Some v |}.

(** [binding.cache = result; binding.activated = true] on the binding of
    [x] held by [o]. *)
Definition set_cache (o : nat) (x : string) (v : value) (s : store) : store :=
  with_bindings o (alter (map (set_cached v)) x) s.

Definition new_instance (class : string) : M value := fun s =>
  Ok (Instance class (next_identity s),
      {| containers := containers s; next_identity := S (next_identity s) |}).

(** What a binding resolves to for a request made on [c]; [get] is the
    [get] of the requesting container. *)
Definition resolve (get : nat -> string -> M value) (c : nat) (b : binding)
  : M value :=
  match target b with
  | ToClass class => new_instance class
  | ToDynamicValue x => get c x
  | ToConstantValue o => mret (Constant o)
  | ToAutoFactory x => mret (Factory c x)
  | ToProvider x => mret (Provider c x)
  end.

Definition activate (o : nat) (x : string) (b : binding) (v : value)
  : M value := fun s =>
  match inScope b with
  | Singleton => Ok (v, set_cache o x v s)
  | Transient => Ok (v, s)
  end.

(** [c.get(x)]. The fuel bounds the nesting of calls (a cycle of dynamic
    values overflows the stack) and the length of the parent chain. *)
Fixpoint get (fuel : nat) (c : nat) (x : string) : M value := fun s =>
  match fuel with
  | 0 => Err StackOverflow
  | S fuel' =>
      match getBindings fuel' s c x with
      | None | Some (_, []) => Err (NoMatchingBindings x)
      | Some (o, [b]) =>
          match inScope b, cache b with
          | Singleton, Some v => Ok (v, s)
          | _, _ => (v ← resolve (get fuel') c b; activate o x b v) s
          end
      | Some (_, _ :: _ :: _) => Err (AmbiguousMatch x)
      end
  end.

(** The value of a run, when it does not throw. *)
Definition value_of {A} (m : M A) (s : store) : option A :=
  match m s with
  | Ok (a, _) => Some a
  | Err _ => None
  end.

(** Calling an auto-factory. *)
Definition invoke (fuel : nat) (f : value) : M value :=
  match f with
  | Factory c x => get fuel c x
  | _ => throw NotAFactory
  end.

(** A [ContainerModule] is a list of registrations; [load] runs them on
    the container it is loaded into. *)
Inductive registration :=
  | Bind (x : string) (t : implementation) (sc : option scope)
  | Unbind (x : string)
  | Rebind (x : string) (t : implementation) (sc : option scope).

Definition register (c : nat) (r : registration) : M unit :=
  match r with
  | Bind x t sc => bind c x t sc
  | Unbind x => unbind c x
  | Rebind x t sc => rebind c x t sc
  end.

Fixpoint load (c : nat) (module : list registration) : M unit :=
  match module with
  | [] => mret tt
  | r :: module' => register c r;; load c module'
  end.

(** The effect of a registration, and of a module, on the bindings that
    the container holds for [x]; [d] is its default scope. *)
Definition registered (d : scope) (x : string) (r : registration)
    (l : option (list binding)) : option (list binding) :=
  match r with
  | Bind y t sc =>
      if decide (y = x)
      then Some (default [] l ++
                 [ {| target := t; inScope := default d sc; cache := None |} ])
      else l
  | Unbind y => if decide (y = x) then None else l
  | Rebind y t sc =>
      if decide (y = x)
      then Some [ {| target := t; inScope := default d sc; cache := None |} ]
      else l
  end.

Definition registered_all (d : scope) (x : string)
    (module : list registration) (l : option (list binding))
  : option (list binding) :=
  foldl (fun l r => registered d x r l) l module.

(** [loadable d own module]: every [unbind] and [rebind] of the module meets
    a bound service identifier, when run on bindings [own]. *)
Fixpoint loadable (d : scope) (own : string -> option (list binding))
    (module : list registration) : Prop :=
  match module with
  | [] => True
  | r :: module' =>
      match r with
      | Bind _ _ _ => True
      | Unbind y | Rebind y _ _ => is_Some (own y)
      end /\
      loadable d (fun x => registered d x r (own x)) module'
  end.

(** The stores reachable from a store by requests made on [c]. *)
Inductive resolves (c : nat) : store -> store -> Prop :=
  | resolves_refl s : resolves c s s
  | resolves_get fuel x v s s' s'' :
      get fuel c x s = Ok (v, s') -> resolves c s' s'' -> resolves c s s''.


(** The service identifier that a registration is about. *)
Definition registers (r : registration) : string :=
  match r with
  | Bind y _ _ | Unbind y | Rebind y _ _ => y
  end.

(** The service identifier that a registration unbinds, if any. *)
Definition unbinds (r : registration) : option string :=
  match r with
  | Bind _ _ _ => None
  | Unbind y | Rebind y _ _ => Some y
  end.

(** [aliased c a t s]: in the store [s] the container [c] binds [a] to the
    dynamic value [ctx => ctx.container.get(t)] and [t] to itself as a
    singleton class, wherever each has one binding only; if the binding of
    [a] has cached a value, the binding of [t] has cached the same one. *)
Record aliased (c : nat) (a t : string) (s : store) : Prop := {
  alias_bound : is_Some (own s c a);
  alias_target : forall ba, own s c a = Some [ba] ->
    target ba = ToDynamicValue t /\
    forall v, cache ba = Some v ->
      exists bt, own s c t = Some [bt] /\ cache bt = Some v;
  service_bound : is_Some (own s c t);
  service_target : forall bt, own s c t = Some [bt] ->
    target bt = ToClass t /\ inScope bt = Singleton
}.

End Inversify.

(** ** The problem tree container *)

Module Problem.
Import Inversify.

Section Container.
(** Of [@theia/core/lib/browser] and [./problem-contribution] the module
    uses the constants [defaultTreeProps] and [MARKER_CONTEXT_MENU] and the
    function [createTreeContainer]. *)
Variable defaultTreeProps : gmap string jsval.
Variable MARKER_CONTEXT_MENU : jsval.
Variable createTreeContainer : nat -> M nat.

(** [{ ...defaultTreeProps, contextMenuPath: MARKER_CONTEXT_MENU }] *)
Definition MARKER_TREE_PROPS : gmap string jsval :=
  <["contextMenuPath" := MARKER_CONTEXT_MENU]> defaultTreeProps.

Definition MARKER_OPTIONS : gmap string jsval :=
  {[ "kind" := JString "problem" ]}.

Definition createProblemTreeContainer (parent : nat) : M nat :=
  child ← createTreeContainer parent;

  unbind child "Tree";;
  bind child "ProblemTree" (ToClass "ProblemTree") None;;
  rebind child "ITree" (ToDynamicValue "ProblemTree") None;;

  unbind child "TreeWidget";;
  bind child "ProblemWidget" (ToClass "ProblemWidget") None;;

  unbind child "TreeModel";;
  bind child "ProblemTreeModel" (ToClass "ProblemTreeModel") None;;
  rebind child "ITreeModel" (ToDynamicValue "ProblemTreeModel") None;;

  bind child "MarkerTreeServices" (ToClass "MarkerTreeServices") None;;

  rebind child "TreeProps" (ToConstantValue MARKER_TREE_PROPS) None;;
  bind child "MarkerOptions" (ToConstantValue MARKER_OPTIONS) None;;
  mret child.

(** The calls made on [child], as registrations. *)
Definition problem_tree_registrations : list registration :=
  [ Unbind "Tree";
    Bind "ProblemTree" (ToClass "ProblemTree") None;
    Rebind "ITree" (ToDynamicValue "ProblemTree") None;
    Unbind "TreeWidget";
    Bind "ProblemWidget" (ToClass "ProblemWidget") None;
    Unbind "TreeModel";
    Bind "ProblemTreeModel" (ToClass "ProblemTreeModel") None;
    Rebind "ITreeModel" (ToDynamicValue "ProblemTreeModel") None;
    Bind "MarkerTreeServices" (ToClass "MarkerTreeServices") None;
    Rebind "TreeProps" (ToConstantValue MARKER_TREE_PROPS) None;
    Bind "MarkerOptions" (ToConstantValue MARKER_OPTIONS) None ].

Definition createProblemWidget (fuel : nat) (parent : nat) : M value :=
  child ← createProblemTreeContainer parent;
  get fuel child "ProblemWidget".
End Container.

(** A tree container to run [createProblemTreeContainer] on: a child of
    [parent] with singleton default scope that binds the tree, the model,
    the widget and the default properties. *)
Definition treeContainerFixture (defaultTreeProps : gmap string jsval)
    (parent : nat) : M nat :=
  child ← createContainer (Some parent) Singleton;
  bind child "Tree" (ToClass "Tree") None;;
  bind child "ITree" (ToDynamicValue "Tree") None;;
  bind child "TreeModel" (ToClass "TreeModel") None;;
  bind child "ITreeModel" (ToDynamicValue "TreeModel") None;;
  bind child "TreeWidget" (ToClass "TreeWidget") None;;
  bind child "TreeProps" (ToConstantValue defaultTreeProps) None;;
  mret child.

(** A store with one container, the parent, and the tree container made
    for it. *)
Definition parentFixture : store :=
  {| containers :=
       {[ 7 := {| parent := None; defaultScope := Transient; bindings := ∅ |} ]};
     next_identity := 0 |}.

Definition propsFixture : gmap string jsval := {[ "leftPadding" := JNumber 16 ]}.
Definition menuFixture : jsval := JStrings ["problem-context-menu"].

Definition childFixture : nat * store :=
  match treeContainerFixture propsFixture 7 parentFixture with
  | Ok r => r
  | Err _ => (7, parentFixture)
  end.

End Problem.

(** ** The monaco frontend module *)

Module Monaco.
Import Inversify.

Definition toSelf (x : string) (sc : option scope) : registration :=
  Bind x (ToClass x) sc.

(** The registrations of the [ContainerModule], in the order of the
    source. *)
Definition monaco_frontend_module : list registration :=
  [ toSelf "MonacoToProtocolConverter" (Some Singleton);
    toSelf "ProtocolToMonacoConverter" (Some Singleton);

    toSelf "MonacoLanguages" (Some Singleton);
    Bind "Languages" (ToDynamicValue "MonacoLanguages") None;

    toSelf "MonacoWorkspace" (Some Singleton);
    Bind "Workspace" (ToDynamicValue "MonacoWorkspace") None;

    toSelf "MonacoEditorService" (Some Singleton);
    toSelf "MonacoTextModelService" (Some Singleton);
    toSelf "MonacoContextMenuService" (Some Singleton);
    toSelf "MonacoEditorProvider" (Some Singleton);
    toSelf "MonacoCommandService" (Some Transient);
    Bind "MonacoCommandServiceFactory" (ToAutoFactory "MonacoCommandService") None;
    Bind "TextEditorProvider" (ToProvider "MonacoEditorProvider") None;

    toSelf "MonacoCommandRegistry" (Some Singleton);
    Bind "CommandContribution" (ToClass "MonacoEditorCommandHandlers") (Some Singleton);
    Bind "MenuContribution" (ToClass "MonacoEditorMenuContribution") (Some Singleton);
    Bind "KeybindingContribution" (ToClass "MonacoKeybindingContribution") (Some Singleton);

    toSelf "MonacoQuickOpenService" (Some Singleton);
    Rebind "QuickOpenService" (ToDynamicValue "MonacoQuickOpenService") (Some Singleton) ].

(** A frontend container to load the module into: one container without
    parent in which the core has bound [QuickOpenService]. *)
Definition frontendFixture : store :=
  {| containers :=
       {[ 0 := {| parent := None; defaultScope := Transient;
                  bindings := {[ "QuickOpenService" :=
                    [ {| target := ToClass "QuickOpenService";
                         inScope := Singleton; cache := None |} ] ]} |} ]};
     next_identity := 0 |}.

Definition loadedFixture : store :=
  match load 0 monaco_frontend_module frontendFixture with
  | Ok (_, s) => s
  | Err _ => frontendFixture
  end.

(** The services that the module binds to themselves in singleton scope. *)
Definition singleton_services : list string :=
  [ "MonacoToProtocolConverter"; "ProtocolToMonacoConverter";
    "MonacoLanguages"; "MonacoWorkspace"; "MonacoEditorService";
    "MonacoTextModelService"; "MonacoContextMenuService";
    "MonacoEditorProvider"; "MonacoCommandRegistry";
    "MonacoQuickOpenService" ].

(** The service identifiers that the module binds to the singleton of
    another one, without a scope of their own. *)
Definition service_aliases : list (string * string) :=
  [ ("Languages", "MonacoLanguages"); ("Workspace", "MonacoWorkspace") ].

End Monaco.

(** ** The monaco editor provider

    [MonacoEditorProvider.get] waits for the model reference and for the
    preferences and then makes the editor. The two promises and the
    preferences change with the events of the page; the promise returned by
    [get] is followed through them. *)

Module EditorProvider.
Import Js.

Record MonacoEditorModel := {
  textEditorModel : nat;       (* the monaco text model, by identity *)
  readOnly : bool
}.

(** The reference that [createModelReference] resolves to. *)
Record Reference := { object : MonacoEditorModel }.

(** [MonacoEditor.IOptions], the fields that [getEditorOptions] sets. A
    preference that is not set reads as undefined ([None]). *)
Record IOptions := {
  opt_model : nat;
  opt_wordWrap : string;
  opt_folding : bool;
  opt_lineNumbers : option jsval;
  opt_renderWhitespace : option jsval;
  opt_glyphMargin : bool;
  opt_readOnly : bool
}.

Record MonacoEditor := {
  editor_uri : string;
  editor_options : IOptions;
  model_tabSize : option jsval   (* textEditorModel.updateOptions(...) *)
}.

Definition getModelOptions (editorPreferences : gmap string jsval)
  : option jsval :=
  editorPreferences !! "editor.tabSize".

Definition getEditorOptions (editorPreferences : gmap string jsval)
    (model : MonacoEditorModel) : IOptions :=
  {| opt_model := textEditorModel model;
     opt_wordWrap := "off";
     opt_folding := true;
     opt_lineNumbers := editorPreferences !! "editor.lineNumbers";
     opt_renderWhitespace := editorPreferences !! "editor.renderWhitespace";
     opt_glyphMargin := true;
     opt_readOnly := readOnly model |}.

(** [get(uri)]: the state of the returned promise, from the states of
    [referencePromise] and [prefPromise]; the callback reads the
    preferences as they are when it runs. Of the editor it makes, the URI,
    the options and the model options are kept; the command service, the
    DOM node and the quick-open controller come from collaborators outside
    these sources and do not enter the options. *)
Definition get (editorPreferences : gmap string jsval) (uri : string)
    (referencePromise : promise Reference) (prefPromise : promise unit)
  : promise MonacoEditor :=
  then_ (Promise_all referencePromise prefPromise)
    (fun '(reference, _) =>
       let model := object reference in
       {| editor_uri := uri;
          editor_options := getEditorOptions editorPreferences model;
          model_tabSize := getModelOptions editorPreferences |}).

(** The page, as far as one call [get(uri)] depends on it. *)
Record world := {
  referencePromise : promise Reference;
    (* this.textModelService.createModelReference(uri) *)
  prefPromise : promise unit;           (* this.editorPreferences.ready *)
  editorPreferences : gmap string jsval;
  returned : promise MonacoEditor       (* the promise that [get] returned *)
}.

Inductive event :=
  | ModelReferenceCreated (reference : Reference)
  | ModelReferenceFailed (reason : string)
  | PreferencesReady
  | PreferenceChanged (preferenceName : string) (newValue : jsval)
  | Tick.                               (* a turn without any of these *)

Definition happen (e : event) (w : world) : world :=
  match e with
  | ModelReferenceCreated r =>
      {| referencePromise := settle (referencePromise w) (Fulfilled r);
         prefPromise := prefPromise w;
         editorPreferences := editorPreferences w; returned := returned w |}
  | ModelReferenceFailed reason =>
      {| referencePromise := settle (referencePromise w) (Rejected reason);
         prefPromise := prefPromise w;
         editorPreferences := editorPreferences w; returned := returned w |}
  | PreferencesReady =>
      {| referencePromise := referencePromise w;
         prefPromise := settle (prefPromise w) (Fulfilled tt);
         editorPreferences := editorPreferences w; returned := returned w |}
  | PreferenceChanged name newValue =>
      {| referencePromise := referencePromise w;
         prefPromise := prefPromise w;
         editorPreferences := <[name := newValue]> (editorPreferences w);
         returned := returned w |}
  | Tick => w
  end.

(** One turn: the event happens, then the reactions of the promise that
    [get] returned run. *)
Definition step (uri : string) (w : world) (e : event) : world :=
  let w' := happen e w in
  {| referencePromise := referencePromise w';
     prefPromise := prefPromise w';
     editorPreferences := editorPreferences w';
     returned :=
       settle (returned w')
         (get (editorPreferences w') uri (referencePromise w') (prefPromise w')) |}.

Definition run (uri : string) (w : world) (events : list event) : world :=
  foldl (step uri) w events.

(** A page on which nothing has happened yet, and four turns. *)
Definition worldFixture : world :=
  {| referencePromise := Pending; prefPromise := Pending;
     editorPreferences := {[ "editor.lineNumbers" := JString "on" ]};
     returned := Pending |}.

Definition eventsFixture : list event :=
  [ PreferencesReady;
    PreferenceChanged "editor.lineNumbers" (JString "off");
    ModelReferenceCreated
      {| object := {| textEditorModel := 1; readOnly := true |} |};
    PreferenceChanged "editor.lineNumbers" (JString "on") ].

(** The two dictionaries from preference name to option name. *)
Definition modelOptions : gmap string string :=
  {[ "editor.tabSize" := "tabSize" ]}.

Definition editorOptions : gmap string string :=
  {[ "editor.lineNumbers" := "lineNumbers";
     "editor.renderWhitespace" := "renderWhitespace" ]}.

(** [EditorPreferenceChange]; the preference name is a key of the editor
    preference schema. *)
Record EditorPreferenceChange := {
  preferenceName : string;
  newValue : jsval
}.

(** [editor.getControl().getModel().updateOptions({ [modelOption]: value })]:
    of the model options the editor record keeps the tab size. *)
Definition update_model_option (modelOption : string) (value : jsval)
    (editor : MonacoEditor) : MonacoEditor :=
  if String.eqb modelOption "tabSize"
  then {| editor_uri := editor_uri editor;
          editor_options := editor_options editor;
          model_tabSize := Some value |}
  else editor.

(** [editor.getControl().updateOptions({ [editorOption]: value })], for the
    two option names that [editorOptions] holds. *)
Definition update_editor_option (editorOption : string) (value : jsval)
    (editor : MonacoEditor) : MonacoEditor :=
  let o := editor_options editor in
  if String.eqb editorOption "lineNumbers" then
    {| editor_uri := editor_uri editor;
       editor_options :=
         {| opt_model := opt_model o; opt_wordWrap := opt_wordWrap o;
            opt_folding := opt_folding o; opt_lineNumbers := Some value;
            opt_renderWhitespace := opt_renderWhitespace o;
            opt_glyphMargin := opt_glyphMargin o;
            opt_readOnly := opt_readOnly o |};
       model_tabSize := model_tabSize editor |}
  else if String.eqb editorOption "renderWhitespace" then
    {| editor_uri := editor_uri editor;
       editor_options :=
         {| opt_model := opt_model o; opt_wordWrap := opt_wordWrap o;
            opt_folding := opt_folding o; opt_lineNumbers := opt_lineNumbers o;
            opt_renderWhitespace := Some value;
            opt_glyphMargin := opt_glyphMargin o;
            opt_readOnly := opt_readOnly o |};
       model_tabSize := model_tabSize editor |}
  else editor.

(** [updateOptions(change, editor)], as the state of the editor after the
    call. *)
Definition updateOptions (change : EditorPreferenceChange)
    (editor : MonacoEditor) : MonacoEditor :=
  let editor :=
    match modelOptions !! preferenceName change with
    | Some modelOption => update_model_option modelOption (newValue change) editor
    | None => editor
    end in
  match editorOptions !! preferenceName change with
  | Some editorOption => update_editor_option editorOption (newValue change) editor
  | None => editor
  end.

(** The preferences after a change. *)
Definition changed (preferences : gmap string jsval)
    (change : EditorPreferenceChange) : gmap string jsval :=
  <[preferenceName change := newValue change]> preferences.

(** The editor control, as far as the quick-open controller uses it. *)
Record Control := {
  selection : option (nat * nat);   (* [getSelection()], [null] as [None] *)
  revealed : option (nat * nat);    (* the range last revealed *)
  decorations : bool;               (* quick-open decorations are shown *)
  focused : bool
}.

(** The [onClose] callback that [installQuickOpenService] passes to
    [internalOpen]; [selection] is the selection taken when [run] was
    called. *)
Definition onClose (selection : option (nat * nat)) (canceled : bool)
    (control : Control) : Control :=
  (* quickOpenController.clearDecorations() *)
  let control :=
    {| selection := EditorProvider.selection control;
       revealed := revealed control; decorations := false;
       focused := focused control |} in
  let control :=
    match canceled, selection with
    | true, Some range =>
        {| selection := Some range; revealed := Some range;
           decorations := decorations control; focused := focused control |}
    | _, _ => control
    end in
  (* editor.focus() *)
  {| selection := EditorProvider.selection control;
     revealed := revealed control; decorations := decorations control;
     focused := true |}.

(** [quickOpenController.run(options)] as installed: the selection is
    taken, [internalOpen] does to the control what it does while quick open
    is open ([during]), and [onClose] runs. *)
Definition quick_open_run (during : Control -> Control) (canceled : bool)
    (control : Control) : Control :=
  let selection := selection control in
  onClose selection canceled (during control).

End EditorProvider.

(** ** The application project installer *)

Module AppProject.

(** How an extension gets into [node_modules]. *)
Inductive resolution :=
  | Linked (path : string)        (* a link to a local package *)
  | Installed (version : string). (* fetched by the package manager *)

(** The files of the application project directory that an installation
    reads and writes, as the test sets them up and inspects them. *)
Record Project := {
  theia_package : gmap string string;      (* theia.package.json: dependencies *)
  localDependencies : gmap string string;  (* .yo-rc.json: localDependencies *)
  package_json : option (gmap string string);  (* package.json: dependencies *)
  node_modules : gmap string resolution;   (* node_modules/<extension> *)
  bundle : bool                            (* lib/bundle.js exists *)
}.

(** [fs.writeJsonSync(theia.package.json, { dependencies })] *)
Definition writeTheiaPackage (dependencies : gmap string string)
    (p : Project) : Project :=
  {| theia_package := dependencies; localDependencies := localDependencies p;
     package_json := package_json p; node_modules := node_modules p;
     bundle := bundle p |}.

Inductive InstallEvent :=
  | WillInstall
  | DidInstall (failed : bool).    (* DidStopInstallationParam *)

(** Modelled from the spec: [AppProject] and its installer are not among
    the sources. The installer "resolves a declared set of Theia extension
    packages": the dependencies of theia.package.json; it "performs
    linked-vs-installed dependency resolution": an extension with an entry
    in [localDependencies] is linked to that path, any other is installed
    at its declared version. *)
Definition declared (p : Project) : gmap string resolution :=
  map_imap (fun name version =>
              Some match localDependencies p !! name with
                   | Some path => Linked path
                   | None => Installed version
                   end)
           (theia_package p).

(** Modelled from the spec: the installer "reconciles them against an
    on-disk node_modules/package.json tree": what is on disk and no longer
    declared is removed, what is declared is linked or installed. *)
Definition reconcile (wanted on_disk : gmap string resolution)
  : gmap string resolution :=
  wanted ∪ filter (fun entry => is_Some (wanted !! entry.1)) on_disk.

(** Modelled from the spec: one installation run. It announces itself,
    generates package.json from the declared set, reconciles node_modules
    with the package manager, "triggers a webpack rebuild", and reports.
    The package manager and webpack are external programs: whether each
    succeeds is a parameter of the run. A run whose package manager fails
    does not rebuild; a run fails when either of the two does. *)
Definition install (packageManager webpack : bool) (p : Project)
  : list InstallEvent * Project :=
  let generated :=
    {| theia_package := theia_package p;
       localDependencies := localDependencies p;
       package_json := Some (theia_package p);
       node_modules := node_modules p; bundle := bundle p |} in
  if packageManager then
    let reconciled :=
      {| theia_package := theia_package p;
         localDependencies := localDependencies p;
         package_json := Some (theia_package p);
         node_modules := reconcile (declared p) (node_modules p);
         bundle := bundle p |} in
    if webpack then
      ([WillInstall; DidInstall false],
       {| theia_package := theia_package p;
          localDependencies := localDependencies p;
          package_json := Some (theia_package p);
          node_modules := reconcile (declared p) (node_modules p);
          bundle := true |})
    else ([WillInstall; DidInstall true], reconciled)
  else ([WillInstall; DidInstall true], generated).

(** The test's [assertInstallation]. It waits until both events have
    fired, then reads package.json and looks into the directory. The
    verdict is [true] when the function returns and [false] when an
    assertion fails, when [readJsonSync] finds no package.json, or when an
    awaited event never fires. *)
Record Expectation := {
  added : option (list string);
  removed : option (list string);
  linked : option (list string);
  unlinked : option (list string)
}.

Definition willInstall (events : list InstallEvent) : bool :=
  existsb (fun e => match e with WillInstall => true | DidInstall _ => false end)
    events.

Definition didInstall (events : list InstallEvent) : option bool :=
  head (omap (fun e => match e with DidInstall failed => Some failed
                                  | WillInstall => None end) events).

Definition generated_and_present (p : Project) (extension : string) : bool :=
  match package_json p with
  | Some dependencies =>
      bool_decide (extension ∈ (map_to_list dependencies).*1) &&
      bool_decide (is_Some (node_modules p !! extension))
  | None => false
  end.

Definition not_generated_and_absent (p : Project) (extension : string) : bool :=
  match package_json p with
  | Some dependencies =>
      negb (bool_decide (extension ∈ (map_to_list dependencies).*1)) &&
      negb (bool_decide (is_Some (node_modules p !! extension)))
  | None => false
  end.

Definition assertInstallation (expectation : Expectation)
    (events : list InstallEvent) (p : Project) : bool :=
  willInstall events &&
  match didInstall events with
  | None => false
  | Some failed =>
      bool_decide (is_Some (package_json p)) &&
      forallb (generated_and_present p) (default [] (added expectation)) &&
      forallb (not_generated_and_absent p) (default [] (removed expectation)) &&
      forallb (generated_and_present p) (default [] (linked expectation)) &&
      forallb (not_generated_and_absent p) (default [] (unlinked expectation)) &&
      bundle p && negb failed
  end.

(** The two projects of the test, before the first installation. *)
Definition installFixture : Project :=
  {| theia_package := {[ "@theia/core" := "0.1.1"; "@theia/filesystem" := "0.1.1" ]};
     localDependencies := ∅;
     package_json := None; node_modules := ∅; bundle := false |}.

Definition installLocalFixture : Project :=
  {| theia_package := {[ "@theia/core" := "0.1.1"; "@theia/filesystem" := "0.1.1" ]};
     localDependencies := {[ "@theia/core" := "../../../core";
                             "@theia/filesystem" := "../../../filesystem" ]};
     package_json := None; node_modules := ∅; bundle := false |}.

End AppProject.

(* ===================================================================== *)
(** * Properties *)
(* ===================================================================== *)

(** ** Facts about strings *)

Module StrFacts.
Import Str.

Lemma append_cons (a : Ascii.ascii) (s t : string) :
  String a s +:+ t = String a (s +:+ t).
Proof. reflexivity. Qed.

Lemma append_nil_l (s : string) : "" +:+ s = s.
Proof. reflexivity. Qed.

Lemma append_nil_r (s : string) : s +:+ "" = s.
Proof.
  induction s as [|a s IH]; [done |]. by rewrite append_cons, IH.
Qed.

Lemma append_assoc (a b c : string) : (a +:+ b) +:+ c = a +:+ (b +:+ c).
Proof.
  induction a as [|x a IH]; [done |]. by rewrite !append_cons, IH.
Qed.

Lemma prefixb_spec (p s : string) :
  prefixb p s = true <-> exists post, s = p +:+ post.
Proof.
  revert s. induction p as [|a p IH]; intros s; simpl.
  - split; [intros _; by exists s | done].
  - destruct s as [|b s].
    + split; [done | intros [post H]; discriminate H].
    + destruct (Ascii.eqb_spec a b) as [->|Hne].
      * rewrite IH. split; intros [post H]; exists post.
        -- by rewrite H.
        -- rewrite append_cons in H. by injection H.
      * split; [done |].
        intros [post H]. rewrite append_cons in H. injection H as E _.
        by destruct Hne.
Qed.

Lemma infixb_spec (n s : string) : infixb n s = true <-> occurs_in n s.
Proof.
  unfold occurs_in. induction s as [|b s IH].
  - cbn [infixb]. rewrite orb_false_r, prefixb_spec. split.
    + intros [post H]. by exists "", post.
    + intros [pre [post H]]. destruct pre; [by exists post | discriminate H].
  - cbn [infixb]. rewrite orb_true_iff, prefixb_spec, IH. split.
    + intros [[post H] | [pre [post H]]].
      * by exists "", post.
      * exists (String b pre), post. by rewrite append_cons, H.
    + intros [pre [post H]]. destruct pre as [|c pre].
      * left. by exists post.
      * right. exists pre, post. rewrite append_cons in H. by injection H.
Qed.

Lemma infixb_false (n s : string) : infixb n s = false -> ~ occurs_in n s.
Proof. intros H Ho. apply infixb_spec in Ho. congruence. Qed.

Lemma occurs_in_refl (s : string) : occurs_in s s.
Proof. exists "", "". by rewrite append_nil_l, append_nil_r. Qed.

Lemma occurs_in_trans (a b c : string) :
  occurs_in a b -> occurs_in b c -> occurs_in a c.
Proof.
  intros (p1 & q1 & ->) (p2 & q2 & ->).
  exists (p2 +:+ p1), (q1 +:+ q2). by rewrite !append_assoc.
Qed.

Lemma occurs_in_app_l (n a b : string) : occurs_in n a -> occurs_in n (a +:+ b).
Proof.
  intros (p & q & ->). exists p, (q +:+ b). by rewrite !append_assoc.
Qed.

Lemma occurs_in_app_r (n a b : string) : occurs_in n b -> occurs_in n (a +:+ b).
Proof.
  intros (p & q & ->). exists (a +:+ p), q. by rewrite !append_assoc.
Qed.

End StrFacts.

(** ** The webpack configuration generator *)

Module WebpackFacts.
Import Str StrFacts Webpack.

Lemma concat_app (a b : list string) :
  concat (a ++ b) = concat a +:+ concat b.
Proof.
  induction a as [|x a IH]; [done |].
  cbn [concat app]. by rewrite IH, append_assoc.
Qed.

Lemma render_app (m : Model) (a b : list frag) :
  render m (a ++ b) = render m a +:+ render m b.
Proof. unfold render. by rewrite map_app, concat_app. Qed.

Lemma occurs_in_concat (x : string) (l : list string) :
  x ∈ l -> occurs_in x (concat l).
Proof.
  induction 1 as [x l | x y l _ IH]; cbn [concat].
  - apply occurs_in_app_l, occurs_in_refl.
  - by apply occurs_in_app_r.
Qed.

(** Every character of the output comes from a rendered chunk or from one
    of the three model values. *)
Lemma render_flat (m : Model) (t : list frag) :
  render m t = render_atoms m (flat_map (select m) t).
Proof.
  unfold render, render_atoms. induction t as [|f t IH]; [done |].
  cbn [map flat_map concat]. by rewrite map_app, concat_app, IH.
Qed.

Lemma emitted_flat (m : Model) (t : list frag) :
  emitted m t = flat_map atom_text (flat_map (select m) t).
Proof.
  unfold emitted. induction t as [|f t IH]; [done |].
  cbn [flat_map]. by rewrite flat_map_app, IH.
Qed.

(** A rendered chunk is part of the output. *)
Lemma emitted_occurs (m : Model) (t : list frag) (chunk : string) :
  chunk ∈ emitted m t -> occurs_in chunk (render m t).
Proof.
  rewrite emitted_flat, render_flat. unfold render_atoms.
  induction (flat_map (select m) t) as [|a l IH]; cbn [flat_map map concat].
  - by intros ?%elem_of_nil.
  - rewrite elem_of_app. intros [Ha | Hl].
    + apply occurs_in_app_l. destruct a; cbn in Ha;
        try (by apply elem_of_nil in Ha).
      apply list_elem_of_singleton in Ha as ->. apply occurs_in_refl.
    + by apply occurs_in_app_r, IH.
Qed.

Lemma emits_occurs (m : Model) (n : string) :
  emits m n = true -> occurs_in n (compileWebpackConfig m).
Proof.
  unfold emits. rewrite existsb_exists. intros (chunk & Hin & Hn).
  apply occurs_in_trans with chunk; [by apply infixb_spec |].
  apply emitted_occurs. by apply list_elem_of_In.
Qed.

Lemma omits_chunks (m : Model) (n : string) :
  omits m n = true -> not_rendered m n.
Proof.
  unfold omits, not_rendered. rewrite forallb_forall. intros H chunk Hin.
  apply infixb_false, negb_true_iff, H. by apply list_elem_of_In.
Qed.

Lemma emits_omits (m : Model) (n : string) : omits m n = negb (emits m n).
Proof.
  unfold omits, emits.
  induction (emitted m webpack_config_template) as [|c l IH]; [done |].
  cbn [forallb existsb]. rewrite IH. by destruct (infixb n c), (existsb _ l).
Qed.

Lemma render_cons_plain (m : Model) (a : atom) (t : list frag) :
  render m (Plain a :: t) = render_atom m a +:+ render m t.
Proof.
  unfold render. cbn [map concat select render_atoms].
  by rewrite append_nil_r.
Qed.

(** The model's target between the two chunks that surround it. *)
Lemma target_between (m : Model) (pre rest : list frag) (s1 s2 : string) :
  s1 = drop_end 13 s1 +:+ "    target: '" ->
  s2 = "'," +:+ drop_start 2 s2 ->
  occurs_in (target_field m)
    (render m (pre ++ Plain (Text s1) :: Plain ModelTarget ::
               Plain (Text s2) :: rest)).
Proof.
  generalize (drop_end 13 s1) (drop_start 2 s2). intros a0 b0 -> ->.
  rewrite render_app, !render_cons_plain. cbn [render_atom].
  exists (render m pre +:+ a0), (b0 +:+ render m rest).
  unfold target_field. by rewrite !append_assoc.
Qed.

(** The [target] field carries the model's target. *)
Lemma target_field_occurs (m : Model) :
  occurs_in (target_field m) (compileWebpackConfig m).
Proof.
  unfold compileWebpackConfig.
  apply (target_between m (firstn 13 webpack_config_template)
           (skipn 16 webpack_config_template)); by vm_compute.
Qed.



(** The texts that only the browser configuration has. *)
Lemma web_only_texts (m : Model) (n : string) :
  n ∈ [port_constant; requirejs_copy_rule; devServer_block] ->
  emits m n = isWeb m.
Proof.
  intros Hn. destruct m as [c p t w e]. cbn [isWeb].
  repeat (apply elem_of_cons in Hn as [-> | Hn]);
    [| | | by apply elem_of_nil in Hn];
    destruct w, e; by vm_compute.
Qed.

Lemma node_stanza_texts (m : Model) :
  emits m node_stanza_electron = isElectron m /\
  emits m node_stanza_empty = negb (isElectron m).
Proof. destruct m as [c p t [] []]; by vm_compute. Qed.

(** C5. The string produced by [compileWebpackConfig] has the field
    [target: '<model target>',]. It contains the yargs port constant
    (default 3000), the require.js copy rule and the [devServer] block with
    the ['/services/*'] proxy to ['ws://localhost:' + port] when generating
    for the browser, and otherwise no chunk of the template that reaches the
    output holds any of them. Its [node] stanza is [__dirname: false,
    __filename: false] when generating for Electron and the four ['empty']
    entries otherwise, and the stanza not chosen is in no rendered chunk.
    (The copyright header, the node_modules path and the target are copied
    into the output as they are; "contains exactly when" is read on the text
    the template itself contributes, see [render_flat] and [emitted_flat];
    [web_blocks] gives the two outputs side by side.) *)
Theorem compileWebpackConfig_by_target (m : Model) :
  occurs_in (target_field m) (compileWebpackConfig m) /\
  (forall n, n ∈ [port_constant; requirejs_copy_rule; devServer_block] ->
     if isWeb m then occurs_in n (compileWebpackConfig m)
     else not_rendered m n) /\
  (if isElectron m
   then occurs_in node_stanza_electron (compileWebpackConfig m) /\
        not_rendered m node_stanza_empty
   else occurs_in node_stanza_empty (compileWebpackConfig m) /\
        not_rendered m node_stanza_electron).
Proof.
  split; [apply target_field_occurs |]. split.
  - intros n Hn. pose proof (web_only_texts m n Hn) as H.
    destruct (isWeb m).
    + by apply emits_occurs.
    + apply omits_chunks. by rewrite emits_omits, H.
  - destruct (node_stanza_texts m) as [He Hn].
    destruct (isElectron m); (split; [by apply emits_occurs |]);
      apply omits_chunks; rewrite emits_omits; by rewrite ?He, ?Hn.
Qed.

(** The configuration of an Electron application with the customary
    values: none of the browser-only texts occurs anywhere in it. *)
Example electron_config_has_no_web_text :
  let m := {| compileCopyright := ""; node_modulesPath := "./node_modules";
              target := "electron-renderer";
              isWeb := false; isElectron := true |} in
  forallb (fun n => negb (infixb n (compileWebpackConfig m)))
    [port_constant; requirejs_copy_rule; devServer_block; node_stanza_empty]
  = true.
Proof. by vm_compute. Qed.

(** C10. [generate] writes [webpack.config.js] only when no file of that
    name exists: an absent file is created with the compiled configuration,
    a present one makes [generate] return the file system as it is (no
    write), so every existing file keeps its content and running [generate]
    twice is the same as running it once. *)
Theorem generate_only_when_absent (m : Model) (fs : gmap string string) :
  (fs !! "webpack.config.js" = None ->
     generate m fs = <["webpack.config.js" := compileWebpackConfig m]> fs) /\
  (is_Some (fs !! "webpack.config.js") -> generate m fs = fs) /\
  (forall path content, fs !! path = Some content ->
     generate m fs !! path = Some content) /\
  generate m (generate m fs) = generate m fs.
Proof.
  assert (Hs : is_Some (fs !! "webpack.config.js") -> generate m fs = fs).
  { intros H. unfold generate, fs_exists. by rewrite bool_decide_eq_true_2. }
  assert (Hn : fs !! "webpack.config.js" = None ->
     generate m fs = <["webpack.config.js" := compileWebpackConfig m]> fs).
  { intros H. unfold generate, fs_exists, fs_write.
    rewrite bool_decide_eq_false_2; [done |]. rewrite H. by intros [? ?]. }
  split; [done |]. split; [done |]. split.
  - intros path content H.
    destruct (fs !! "webpack.config.js") as [c|] eqn:E.
    + by rewrite Hs.
    + rewrite Hn by done. rewrite lookup_insert_ne; [done | congruence].
  - destruct (fs !! "webpack.config.js") as [c|] eqn:E.
    + by rewrite !Hs.
    + rewrite (Hn eq_refl). unfold generate, fs_exists.
      rewrite bool_decide_eq_true_2; [done |]. by rewrite lookup_insert_eq.
Qed.

(** A model value between the two chunks that surround it. *)
Lemma value_between (m : Model) (a : atom) (pre rest : list frag)
    (s1 s2 u v : string) :
  s1 = drop_end (String.length u) s1 +:+ u ->
  s2 = v +:+ drop_start (String.length v) s2 ->
  occurs_in (u +:+ render_atom m a +:+ v)
    (render m (pre ++ Plain (Text s1) :: Plain a :: Plain (Text s2) :: rest)).
Proof.
  generalize (drop_end (String.length u) s1) (drop_start (String.length v) s2).
  intros a0 b0 -> ->.
  rewrite render_app, !render_cons_plain. cbn [render_atom].
  exists (render m pre +:+ a0), (b0 +:+ render m rest).
  by rewrite !append_assoc.
Qed.


(** X2. [generate] touches no file but [webpack.config.js], and after it
    that file exists. *)
Theorem generate_frame (m : Model) (fs : gmap string string) :
  fs_exists (generate m fs) "webpack.config.js" = true /\
  forall path, path ≠ "webpack.config.js" -> generate m fs !! path = fs !! path.
Proof.
  unfold generate, fs_exists, fs_write.
  destruct (fs !! "webpack.config.js") as [c|] eqn:E.
  - rewrite (bool_decide_eq_true_2 (is_Some (Some c))) by by eexists.
    cbn [negb]. rewrite E. split; [by apply bool_decide_eq_true_2 | done].
  - rewrite (bool_decide_eq_false_2 (is_Some None)) by by intros [? ?].
    cbn [negb]. split.
    + apply bool_decide_eq_true_2. rewrite lookup_insert_eq. by eexists.
    + intros path Hp. by rewrite lookup_insert_ne.
Qed.

(** X3. Whatever the target, the configuration declares each of the five
    monaco locations as a constant whose value is the model's node_modules
    path followed by the location's path. *)
Theorem monaco_paths_below_node_modules (m : Model) (name path : string) :
  (name, path) ∈ monaco_paths ->
  occurs_in (path_constant m name path) (compileWebpackConfig m).
Proof.
  intros H. unfold monaco_paths in H. rewrite !elem_of_cons in H.
  unfold compileWebpackConfig.
  destruct H as [[= -> ->] | [[= -> ->] | [[= -> ->] | [[= -> ->] | [H | H]]]]];
    [| | | | injection H as -> -> | by apply elem_of_nil in H].
  - change (path_constant m "monacoEditorPath" "/monaco-editor-core/min/vs")
      with ("const monacoEditorPath = '" +:+ render_atom m NodeModulesPath +:+
            "/monaco-editor-core/min/vs';").
    apply (value_between m NodeModulesPath
             (firstn 1 webpack_config_template)
             (skipn 4 webpack_config_template)); by vm_compute.
  - change (path_constant m "monacoLanguagesPath" "/monaco-languages/release")
      with ("const monacoLanguagesPath = '" +:+ render_atom m NodeModulesPath +:+
            "/monaco-languages/release';").
    apply (value_between m NodeModulesPath
             (firstn 3 webpack_config_template)
             (skipn 6 webpack_config_template)); by vm_compute.
  - change (path_constant m "monacoCssLanguagePath" "/monaco-css/release/min")
      with ("const monacoCssLanguagePath = '" +:+ render_atom m NodeModulesPath +:+
            "/monaco-css/release/min';").
    apply (value_between m NodeModulesPath
             (firstn 5 webpack_config_template)
             (skipn 8 webpack_config_template)); by vm_compute.
  - change (path_constant m "monacoJsonLanguagePath" "/monaco-json/release/min")
      with ("const monacoJsonLanguagePath = '" +:+ render_atom m NodeModulesPath +:+
            "/monaco-json/release/min';").
    apply (value_between m NodeModulesPath
             (firstn 7 webpack_config_template)
             (skipn 10 webpack_config_template)); by vm_compute.
  - change (path_constant m "monacoHtmlLanguagePath" "/monaco-html/release/min")
      with ("const monacoHtmlLanguagePath = '" +:+ render_atom m NodeModulesPath +:+
            "/monaco-html/release/min';").
    apply (value_between m NodeModulesPath
             (firstn 9 webpack_config_template)
             (skipn 12 webpack_config_template)); by vm_compute.
Qed.

Lemma monaco_paths_below_node_modules_witness :
  ("monacoCssLanguagePath", "/monaco-css/release/min") ∈ monaco_paths /\
  occurs_in "const monacoCssLanguagePath = '../nm/monaco-css/release/min';"
    (compileWebpackConfig
       {| compileCopyright := ""; node_modulesPath := "../nm";
          target := "web"; isWeb := true; isElectron := false |}).
Proof.
  assert (H : ("monacoCssLanguagePath", "/monaco-css/release/min")
              ∈ monaco_paths) by (repeat constructor).
  split; [exact H |].
  exact (monaco_paths_below_node_modules
           {| compileCopyright := ""; node_modulesPath := "../nm";
              target := "web"; isWeb := true; isElectron := false |}
           "monacoCssLanguagePath" "/monaco-css/release/min" H).
Defined.

End WebpackFacts.

(** ** The npm registry client *)

Module NpmFacts.
Import Str StrFacts Npm.

Lemma encodeURIComponent_app (a b : string) :
  encodeURIComponent (a +:+ b) = encodeURIComponent a +:+ encodeURIComponent b.
Proof.
  induction a as [|c a IH]; [done |].
  rewrite append_cons. cbn [encodeURIComponent].
  by rewrite IH, append_assoc.
Qed.

Example view_url_scoped :
  view_url {| name := "@theia/core"; abbreviated := None |}
  = "https://registry.npmjs.org/@theia%2Fcore".
Proof. reflexivity. Qed.

Example view_url_plain :
  view_url {| name := "left-pad"; abbreviated := Some false |}
  = "https://registry.npmjs.org/left-pad".
Proof. reflexivity. Qed.

Example encodeURIComponent_at : encodeURIComponent "@" = "%40".
Proof. reflexivity. Qed.

(** C9. For a name that begins with [@], the request goes to
    [https://registry.npmjs.org/@] followed by the URI-encoding of the rest
    of the name, in which the [/] between scope and package becomes [%2F];
    for every other name to [https://registry.npmjs.org/] followed by the
    URI-encoding of the whole name. The abbreviated-metadata [Accept] header
    is the only header and is sent exactly when [abbreviated] is undefined
    or true. *)
Theorem view_request_url_and_accept :
  (forall rest abbr,
     url (view_request {| name := String "@" rest; abbreviated := abbr |})
     = "https://registry.npmjs.org/@" +:+ encodeURIComponent rest) /\
  (forall scope pkg,
     encodeURIComponent (scope +:+ "/" +:+ pkg)
     = encodeURIComponent scope +:+ "%2F" +:+ encodeURIComponent pkg) /\
  (forall param, prefixb "@" (name param) = false ->
     url (view_request param)
     = "https://registry.npmjs.org/" +:+ encodeURIComponent (name param)) /\
  (forall param,
     headers (view_request param) =
       if bool_decide (abbreviated param = None \/ abbreviated param = Some true)
       then {[ "Accept" := abbreviated_accept ]} else ∅).
Proof.
  split; [reflexivity |]. split.
  { intros scope pkg. by rewrite !encodeURIComponent_app. }
  split.
  - intros [n abbr] H. cbn in *. unfold view_url. cbn [name].
    destruct n as [|c n]; [done |].
    cbn [prefixb] in H. destruct (Ascii.eqb_spec "@" c) as [<- | Hne]; [done |].
    destruct c as [[] [] [] [] [] [] [] []]; try done.
  - intros [n [[]|]]; reflexivity.
Qed.

Section ViewFacts.
Context {Json Err : Type}.
Variable JSON_parse : string -> option Json.

(** The promise is rejected exactly when [request] reports an error or
    the status code is not 200. *)
Lemma view_rejected_iff (param : ViewParam)
    (err : option Err) (response : Response) (body : string) :
  (exists r, view JSON_parse param err response body = Rejected r)
  <-> is_Some err \/ statusCode response <> 200%N.
Proof.
  unfold view, view_callback. destruct err as [e|].
  - split; [intros _; left; eauto | intros _; eauto].
  - destruct (N.eqb_spec (statusCode response) 200) as [E | E]; cbn [negb].
    + split.
      * intros [r H]. by destruct (JSON_parse body).
      * intros [[? ?] | ?]; done.
    + split; [auto | eauto].
Qed.

(** With a status code other than 200 the reason is an [Error] whose
    message is the code, the status message and the URL. *)
Lemma view_status_rejection (param : ViewParam)
    (response : Response) (body : string) :
  statusCode response <> 200%N ->
  view (Err := Err) JSON_parse param None response body
  = Rejected (Error (Err := Err) (pretty (statusCode response) +:+ ": " +:+
                     statusMessage response +:+ " for " +:+ view_url param)).
Proof.
  intros E. unfold view, view_callback.
  by destruct (N.eqb_spec (statusCode response) 200).
Qed.

(** A 200 response whose body parses resolves the promise with the
    parsed body. *)
Lemma view_resolved (param : ViewParam)
    (response : Response) (body : string) (data : Json) :
  statusCode response = 200%N -> JSON_parse body = Some data ->
  view (Err := Err) JSON_parse param None response body = Resolved data.
Proof.
  intros E H. unfold view, view_callback. by rewrite E, H.
Qed.

(** C8, at the failing input. A 200 response whose body is not JSON
    makes [JSON.parse] throw inside the callback: the promise is neither
    resolved nor rejected. *)
Theorem view_unparsable_body_unsettled (param : ViewParam)
    (response : Response) (body : string) :
  statusCode response = 200%N -> JSON_parse body = None ->
  view (Err := Err) JSON_parse param None response body = Thrown.
Proof.
  intros E H. unfold view, view_callback. by rewrite E, H.
Qed.
End ViewFacts.

Lemma view_unparsable_body_unsettled_witness :
  view (Err := string) parse_literal {| name := "left-pad"; abbreviated := None |} None
    {| statusCode := 200; statusMessage := "OK" |} "<html>"
  = Thrown.
Proof.
  apply (view_unparsable_body_unsettled (Err := string) parse_literal);
    reflexivity.
Defined.

Example view_not_found :
  view (Err := string) parse_literal {| name := "@theia/core"; abbreviated := None |} None
    {| statusCode := 404; statusMessage := "Not Found" |} ""
  = Rejected (Error "404: Not Found for https://registry.npmjs.org/@theia%2Fcore").
Proof. by vm_compute. Qed.

(** *** The alphabet of an encoded component *)

Lemma view_url_unscoped (param : ViewParam) (a : Ascii.ascii) (rest : string) :
  name param = String a rest -> a ≠ "@"%char ->
  view_url param = "https://registry.npmjs.org/" +:+ encodeURIComponent (name param).
Proof.
  intros En Hne. unfold view_url. rewrite En.
  destruct a as [[] [] [] [] [] [] [] []];
    first [reflexivity | by destruct Hne].
Qed.

Lemma chars_app (a b : string) : chars (a +:+ b) = chars a ++ chars b.
Proof.
  induction a as [|c a IH]; [done |]. rewrite append_cons. cbn. by rewrite IH.
Qed.

Lemma percent_encode_chars (c : Ascii.ascii) :
  Forall (fun d => uriUnescaped d = true \/ d = "%"%char)
         (chars (percent_encode c)).
Proof.
  assert (H : forallb (fun d => uriUnescaped d || Ascii.eqb d "%")
                      (chars (percent_encode c)) = true).
  { destruct c as [[] [] [] [] [] [] [] []]; vm_compute; reflexivity. }
  rewrite forallb_forall in H. apply Forall_forall. intros d Hd.
  apply list_elem_of_In, H, orb_true_iff in Hd as [Hd | Hd]; [by left | right].
  by apply Ascii.eqb_eq.
Qed.

Lemma encodeURIComponent_chars (s : string) :
  Forall (fun d => uriUnescaped d = true \/ d = "%"%char)
         (chars (encodeURIComponent s)).
Proof.
  induction s as [|c s IH]; [constructor |].
  cbn [encodeURIComponent]. rewrite chars_app. apply Forall_app. split; [|done].
  destruct (uriUnescaped c) eqn:E; [|apply percent_encode_chars].
  constructor; [by left | constructor].
Qed.

Lemma occurs_in_chars (c : Ascii.ascii) (s : string) :
  occurs_in (String c "") s -> c ∈ chars s.
Proof.
  intros (pre & post & ->). rewrite !chars_app. cbn.
  apply elem_of_app. right. apply elem_of_cons. by left.
Qed.

(** X4. An encoded component consists of letters, digits, the marks
    [- _ . ! ~ * ' ( )] and [%] only. The URL that [view] requests is the
    registry prefix followed by text without [/], [?] or [#]: no package
    name reaches another path or a query of the registry. *)
Theorem view_url_one_segment (param : ViewParam) :
  exists component,
    view_url param = "https://registry.npmjs.org/" +:+ component /\
    forall c, c ∈ ["/"; "?"; "#"]%char -> ~ occurs_in (String c "") component.
Proof.
  assert (Henc : forall s c, c ∈ ["/"; "?"; "#"]%char ->
                   ~ occurs_in (String c "") (encodeURIComponent s)).
  { intros s c Hc Ho%occurs_in_chars.
    pose proof (encodeURIComponent_chars s) as Hall.
    rewrite Forall_forall in Hall. specialize (Hall c Ho).
    rewrite !elem_of_cons in Hc.
    destruct Hc as [-> | [-> | [-> | Hc]]]; [| | | by apply elem_of_nil in Hc];
      by destruct Hall. }
  destruct (name param) as [|a rest] eqn:En.
  { exists (encodeURIComponent ""). unfold view_url. rewrite En.
    split; [done | by apply Henc]. }
  destruct (Ascii.eqb_spec a "@") as [-> | Hne].
  - exists ("@" +:+ encodeURIComponent rest). unfold view_url. rewrite En.
    split; [done |].
    intros c Hc Ho%occurs_in_chars. rewrite chars_app in Ho. cbn in Ho.
    apply elem_of_cons in Ho as [-> | Ho].
    + rewrite !elem_of_cons in Hc.
      destruct Hc as [Hc | [Hc | [Hc | Hc]]]; try done.
      by apply elem_of_nil in Hc.
    + pose proof (encodeURIComponent_chars rest) as Hall.
      rewrite Forall_forall in Hall. specialize (Hall c Ho).
      rewrite !elem_of_cons in Hc.
      destruct Hc as [-> | [-> | [-> | Hc]]]; [| | | by apply elem_of_nil in Hc];
        by destruct Hall.
  - exists (encodeURIComponent (String a rest)). split; [|by apply Henc].
    rewrite <- En. by apply (view_url_unscoped param a rest).
Qed.

(** *** Distinct names, distinct URLs *)

Lemma hex_value_digit (n : N) : (n < 16)%N -> hex_value (hex_digit n) = n.
Proof.
  intros H. destruct n as [|p]; [reflexivity |].
  do 5 (try (destruct p as [p|p|]; try reflexivity; try lia)).
Qed.

Lemma percent_encode_inj (c d : Ascii.ascii) :
  percent_encode c = percent_encode d -> c = d.
Proof.
  unfold percent_encode. intros [= Hh Hl].
  pose proof (Ascii.N_ascii_bounded c) as Bc.
  pose proof (Ascii.N_ascii_bounded d) as Bd.
  apply (f_equal hex_value) in Hh, Hl.
  rewrite !hex_value_digit in Hh, Hl
    by (try apply N.mod_lt; try apply N.Div0.div_lt_upper_bound; lia).
  rewrite <- (Ascii.ascii_N_embedding c), <- (Ascii.ascii_N_embedding d).
  f_equal.
  rewrite (N.div_mod (Ascii.N_of_ascii c) 16), (N.div_mod (Ascii.N_of_ascii d) 16)
    by lia.
  by rewrite Hh, Hl.
Qed.

Lemma encodeURIComponent_cons (c : Ascii.ascii) (s : string) :
  encodeURIComponent (String c s) =
    if uriUnescaped c then String c (encodeURIComponent s)
    else String "%" (String (hex_digit (Ascii.N_of_ascii c / 16))
           (String (hex_digit (Ascii.N_of_ascii c mod 16))
              (encodeURIComponent s))).
Proof. cbn [encodeURIComponent]. by destruct (uriUnescaped c). Qed.

(** [encodeURIComponent] loses nothing: two names with the same encoding
    are the same name. *)
Lemma encodeURIComponent_inj (s t : string) :
  encodeURIComponent s = encodeURIComponent t -> s = t.
Proof.
  revert t. induction s as [|c s IH]; intros [|d t].
  - done.
  - rewrite encodeURIComponent_cons. by destruct (uriUnescaped d).
  - rewrite encodeURIComponent_cons. by destruct (uriUnescaped c).
  - rewrite !encodeURIComponent_cons.
    destruct (uriUnescaped c) eqn:Ec, (uriUnescaped d) eqn:Ed.
    + intros [= -> H]. by rewrite (IH t H).
    + intros [= -> _]. by vm_compute in Ec.
    + intros [= <- _]. by vm_compute in Ed.
    + intros [= Hh Hl H]. rewrite (IH t H). f_equal.
      apply percent_encode_inj. unfold percent_encode. by rewrite Hh, Hl.
Qed.

(** The first character of an encoding is never [@]. *)
Lemma encodeURIComponent_not_at (s rest : string) :
  encodeURIComponent s ≠ String "@" rest.
Proof.
  destruct s as [|c s]; [done |]. rewrite encodeURIComponent_cons.
  destruct (uriUnescaped c) eqn:Ec; [|done].
  intros [= -> _]. by vm_compute in Ec.
Qed.

(** X5. Two requests of [view] for different package names go to different
    URLs: the URL determines the name. *)
Theorem view_url_inj (p q : ViewParam) :
  view_url p = view_url q -> name p = name q.
Proof.
  assert (Hscoped : forall r : ViewParam, forall rest,
            name r = String "@" rest ->
            view_url r = "https://registry.npmjs.org/" +:+
                         String "@" (encodeURIComponent rest)).
  { intros r rest E. unfold view_url. by rewrite E. }
  assert (Hplain : forall r : ViewParam,
            (forall rest, name r ≠ String "@" rest) ->
            view_url r = "https://registry.npmjs.org/" +:+
                         encodeURIComponent (name r)).
  { intros r Hr. destruct (name r) as [|a rest] eqn:E.
    - unfold view_url. by rewrite E.
    - rewrite <- E. apply (view_url_unscoped r a rest E).
      intros ->. by apply (Hr rest). }
  assert (Hcase : forall r : ViewParam,
            (exists rest, name r = String "@" rest) \/
            (forall rest, name r ≠ String "@" rest)).
  { intros r. destruct (name r) as [|a rest]; [by right |].
    destruct (Ascii.eqb_spec a "@") as [-> | Hne]; [left; by eexists |].
    right. by intros rest' [= ? _]. }
  destruct (Hcase p) as [[rp Ep] | Hp], (Hcase q) as [[rq Eq] | Hq].
  - rewrite (Hscoped p rp Ep), (Hscoped q rq Eq), Ep, Eq.
    intros H%(inj (String.append _)). injection H as H.
    by rewrite (encodeURIComponent_inj _ _ H).
  - rewrite (Hscoped p rp Ep), (Hplain q Hq).
    intros H%(inj (String.append _)). symmetry in H.
    by apply encodeURIComponent_not_at in H.
  - rewrite (Hplain p Hp), (Hscoped q rq Eq).
    intros H%(inj (String.append _)).
    by apply encodeURIComponent_not_at in H.
  - rewrite (Hplain p Hp), (Hplain q Hq).
    intros H%(inj (String.append _)). by apply encodeURIComponent_inj.
Qed.

Lemma view_url_inj_witness :
  view_url {| name := "@theia/core"; abbreviated := None |}
  = view_url {| name := "@theia/core"; abbreviated := Some false |} /\
  name {| name := "@theia/core"; abbreviated := None |}
  = name {| name := "@theia/core"; abbreviated := Some false |}.
Proof.
  assert (H : view_url {| name := "@theia/core"; abbreviated := None |}
              = view_url {| name := "@theia/core"; abbreviated := Some false |})
    by reflexivity.
  split; [exact H |]. exact (view_url_inj _ _ H).
Defined.

(** *** The promises of [view] and [version] *)

Section Outcomes.
Context {Json Err : Type}.
Variable JSON_parse : string -> option Json.

(** X6. The promise of [view] is resolved, with the parsed body, exactly
    when [request] reports no error, the status code is 200 and the body
    parses; it is rejected with the error of [request] whenever there is
    one, whatever the response, and otherwise with the status error exactly
    when the status code is not 200. *)
Theorem view_settled (param : ViewParam)
    (err : option Err) (response : Response) (body : string) :
  (forall data,
     view JSON_parse param err response body = Resolved data <->
     err = None /\ statusCode response = 200%N /\ JSON_parse body = Some data) /\
  (forall r,
     view JSON_parse param err response body = Rejected r <->
     (exists e, err = Some e /\ r = RequestError e) \/
     (err = None /\ statusCode response <> 200%N /\
      r = Error (status_error response (view_url param)))).
Proof.
  unfold view, view_callback. cbn [url view_request].
  destruct err as [e|].
  - split.
    + intros data. split; [done | by intros [? _]].
    + intros r. split.
      * intros [= <-]. left. by exists e.
      * intros [(e' & [= <-] & ->) | [? _]]; done.
  - destruct (N.eqb_spec (statusCode response) 200) as [E | E]; cbn [negb].
    + split.
      * intros data. destruct (JSON_parse body) as [d|]; split;
          try done; try (by intros [= <-]); try (by intros (_ & _ & [= <-]));
          by intros (_ & _ & ?).
      * intros r. split.
        -- by destruct (JSON_parse body).
        -- intros [(e & ? & _) | (_ & ? & _)]; done.
    + split.
      * intros data. split; [done | by intros (_ & ? & _)].
      * intros r. split.
        -- intros [= <-]. by right.
        -- intros [(e & ? & _) | (_ & _ & ->)]; done.
Qed.
End Outcomes.

Section VersionFacts.
Context {Err : Type}.
Variable JSON_parse : string -> option json.

End VersionFacts.

End NpmFacts.

(** ** The dependency-injection container *)

Module InversifyFacts.
Import Inversify.

Lemma bind_M {A B} (m : M A) (k : A -> M B) (s : store) :
  (m ≫= k) s = match m s with Ok (a, s') => k a s' | Err e => Err e end.
Proof. reflexivity. Qed.

Lemma own_with_bindings (c : nat) f (s : store) (x : string) :
  own (with_bindings c f s) c x = (cc ← containers s !! c; f (bindings cc) !! x).
Proof.
  unfold own, with_bindings. cbn [containers].
  rewrite lookup_alter_eq. by destruct (containers s !! c).
Qed.

Lemma own_with_bindings_ne (c c' : nat) f (s : store) (x : string) :
  c ≠ c' -> own (with_bindings c f s) c' x = own s c' x.
Proof.
  intros H. unfold own, with_bindings. cbn [containers].
  by rewrite lookup_alter_ne.
Qed.

Lemma with_bindings_other (c c' : nat) f (s : store) :
  c ≠ c' -> containers (with_bindings c f s) !! c' = containers s !! c'.
Proof. intros H. unfold with_bindings. cbn. by rewrite lookup_alter_ne. Qed.

Lemma own_set_cache (o c : nat) (x y : string) (v : value) (s : store) :
  own (set_cache o x v s) c y =
    if decide (o = c /\ x = y) then map (set_cached v) <$> own s c y
    else own s c y.
Proof.
  unfold set_cache. destruct (decide (o = c)) as [-> | Hne].
  - rewrite own_with_bindings. unfold own.
    destruct (containers s !! c) as [cc|]; cbn.
    + destruct (decide (x = y)) as [-> | Hxy].
      * rewrite decide_True by done. by rewrite lookup_alter_eq.
      * rewrite decide_False by (by intros [_ ?]). by rewrite lookup_alter_ne.
    + by case_decide.
  - rewrite own_with_bindings_ne by done.
    by rewrite decide_False by (by intros [? _]).
Qed.

Lemma own_set_cache_ne (o c : nat) (x y : string) (v : value) (s : store) :
  (o, x) ≠ (c, y) -> own (set_cache o x v s) c y = own s c y.
Proof.
  intros H. rewrite own_set_cache. apply decide_False.
  intros [-> ->]. by apply H.
Qed.

Lemma own_set_cache_eq (c : nat) (x : string) (v : value) (s : store) :
  own (set_cache c x v s) c x = map (set_cached v) <$> own s c x.
Proof. rewrite own_set_cache. by apply decide_True. Qed.

Lemma getBindings_own (d : nat) (s : store) (c : nat) (x : string) l :
  own s c x = Some l -> getBindings d s c x = Some (c, l).
Proof.
  unfold own. destruct d; cbn [getBindings];
    destruct (containers s !! c) as [cc|]; cbn; try done;
    by intros ->.
Qed.

Lemma getBindings_sound (d : nat) (s : store) (c : nat) (x : string) o l :
  getBindings d s c x = Some (o, l) -> own s o x = Some l.
Proof.
  revert c. induction d as [|d IH]; intros c; cbn [getBindings]; unfold own;
    destruct (containers s !! c) as [cc|] eqn:Ec; try done;
    destruct (bindings cc !! x) as [l'|] eqn:El.
  - intros [= <- <-]. by rewrite Ec.
  - by destruct (parent cc).
  - intros [= <- <-]. by rewrite Ec.
  - destruct (parent cc) as [p|]; [apply IH | done].
Qed.

(** The shape of a request: what [get] does once the bindings are
    found. *)
Lemma get_found (fuel : nat) (c : nat) (x : string) (s : store) o b :
  getBindings fuel s c x = Some (o, [b]) ->
  get (S fuel) c x s =
    match inScope b, cache b with
    | Singleton, Some v => Ok (v, s)
    | _, _ => (v ← resolve (get fuel) c b; activate o x b v) s
    end.
Proof. intros H. cbn [get]. by rewrite H. Qed.

Lemma get_inv (fuel : nat) (c : nat) (x : string) (s : store) v s' :
  get fuel c x s = Ok (v, s') ->
  exists fuel' o b,
    fuel = S fuel' /\ getBindings fuel' s c x = Some (o, [b]) /\
    own s o x = Some [b] /\
    match inScope b, cache b with
    | Singleton, Some w => w = v /\ s' = s
    | _, _ => exists s1, resolve (get fuel') c b s = Ok (v, s1) /\
                         activate o x b v s1 = Ok (v, s')
    end.
Proof.
  destruct fuel as [|fuel]; [done |]. cbn [get].
  destruct (getBindings fuel s c x) as [[o [|b [|b' l]]]|] eqn:E; try done.
  intros H. exists fuel, o, b. split; [done |]. split; [done |].
  split; [by eapply getBindings_sound |].
  assert (Hres : (v ← resolve (get fuel) c b; activate o x b v) s = Ok (v, s') ->
    exists s1, resolve (get fuel) c b s = Ok (v, s1) /\
               activate o x b v s1 = Ok (v, s')).
  { rewrite bind_M. destruct (resolve (get fuel) c b s) as [[w s1]|] eqn:Er; [|done].
    intros Ha. exists s1. unfold activate in *.
    destruct (inScope b); injection Ha as <- <-; done. }
  destruct (inScope b), (cache b); auto.
  by injection H as <- <-.
Qed.

Lemma activate_inv o x b v s w s' :
  activate o x b v s = Ok (w, s') ->
  w = v /\ s' = match inScope b with
                | Singleton => set_cache o x v s
                | Transient => s
                end.
Proof. unfold activate. destruct (inScope b); by intros [= <- <-]. Qed.

Lemma resolve_inv get c b s v s1 :
  resolve get c b s = Ok (v, s1) ->
  match target b with
  | ToClass k =>
      v = Instance k (next_identity s) /\
      s1 = {| containers := containers s; next_identity := S (next_identity s) |}
  | ToDynamicValue y => get c y s = Ok (v, s1)
  | ToConstantValue obj => v = Constant obj /\ s1 = s
  | ToAutoFactory y => v = Factory c y /\ s1 = s
  | ToProvider y => v = Provider c y /\ s1 = s
  end.
Proof.
  unfold resolve. destruct (target b); try done;
    by intros [= <- <-].
Qed.

Lemma own_new_identity (s : store) (n : nat) (c : nat) (x : string) :
  own {| containers := containers s; next_identity := n |} c x = own s c x.
Proof. reflexivity. Qed.



Lemma resolves_trans (c : nat) (s1 s2 s3 : store) :
  resolves c s1 s2 -> resolves c s2 s3 -> resolves c s1 s3.
Proof.
  induction 1; [done |]. intros. eapply resolves_get; eauto.
Qed.

(** Forward rules: what a request yields when [c] itself holds exactly one
    binding for the service identifier. *)
Lemma get_cached (fuel : nat) (c : nat) (x : string) (s : store) b v :
  own s c x = Some [b] -> inScope b = Singleton -> cache b = Some v ->
  get (S fuel) c x s = Ok (v, s).
Proof.
  intros Ho Hs Hc. rewrite (get_found _ _ _ _ c b) by by apply getBindings_own.
  by rewrite Hs, Hc.
Qed.

Lemma get_fresh (fuel : nat) (c : nat) (x : string) (s : store) b v s1 :
  own s c x = Some [b] ->
  (inScope b = Transient \/ cache b = None) ->
  resolve (get fuel) c b s = Ok (v, s1) ->
  get (S fuel) c x s =
    Ok (v, match inScope b with
           | Singleton => set_cache c x v s1
           | Transient => s1
           end).
Proof.
  intros Ho Hc Hr. rewrite (get_found _ _ _ _ c b) by by apply getBindings_own.
  assert ((v ← resolve (get fuel) c b; activate c x b v) s =
    Ok (v, match inScope b with
           | Singleton => set_cache c x v s1
           | Transient => s1
           end)) as Hgo.
  { rewrite bind_M, Hr. unfold activate. by destruct (inScope b). }
  destruct Hc as [Hc | Hc]; rewrite Hc in *; [done |].
  by destruct (inScope b).
Qed.

(** Registrations change the bindings of the container they run on, and
    nothing else. *)
Lemma bind_inv c x t sc s u s' :
  bind c x t sc s = Ok (u, s') ->
  exists cc, containers s !! c = Some cc /\
    s' = with_bindings c
           (fun bs => <[x := default [] (bs !! x) ++
              [ {| target := t; inScope := default (defaultScope cc) sc;
                   cache := None |} ]]> bs) s.
Proof.
  unfold bind. destruct (containers s !! c) as [cc|]; [|done].
  intros [= <-]. by exists cc.
Qed.

Lemma bind_ok c x t sc s cc :
  containers s !! c = Some cc ->
  bind c x t sc s =
    Ok (tt, with_bindings c
           (fun bs => <[x := default [] (bs !! x) ++
              [ {| target := t; inScope := default (defaultScope cc) sc;
                   cache := None |} ]]> bs) s).
Proof. intros H. unfold bind. by rewrite H. Qed.

Lemma unbind_inv c x s u s' :
  unbind c x s = Ok (u, s') ->
  is_Some (own s c x) /\ s' = with_bindings c (delete x) s.
Proof.
  unfold unbind. destruct (own s c x); [|done]. by intros [= <-].
Qed.

Lemma unbind_ok c x s :
  is_Some (own s c x) -> unbind c x s = Ok (tt, with_bindings c (delete x) s).
Proof. intros [l H]. unfold unbind. by rewrite H. Qed.

Lemma with_bindings_same c f s cc :
  containers s !! c = Some cc ->
  containers (with_bindings c f s) !! c =
    Some {| parent := parent cc; defaultScope := defaultScope cc;
            bindings := f (bindings cc) |}.
Proof. intros H. unfold with_bindings. cbn. by rewrite lookup_alter_eq, H. Qed.

(** The frame of a run: what stays as it is. *)
Record frame (c : nat) (s s' : store) : Prop := {
  frame_others : forall c', c ≠ c' -> containers s' !! c' = containers s !! c';
  frame_identity : next_identity s' = next_identity s;
  frame_container : forall cc, containers s !! c = Some cc ->
    exists cc', containers s' !! c = Some cc' /\
                parent cc' = parent cc /\ defaultScope cc' = defaultScope cc
}.

Lemma frame_refl c s : frame c s s.
Proof. split; eauto. Qed.

Lemma frame_trans c s1 s2 s3 : frame c s1 s2 -> frame c s2 s3 -> frame c s1 s3.
Proof.
  intros [A1 B1 C1] [A2 B2 C2]. split.
  - intros c' H. by rewrite A2, A1.
  - by rewrite B2.
  - intros cc H. destruct (C1 cc H) as (cc' & H' & P1 & D1).
    destruct (C2 cc' H') as (cc'' & H'' & P2 & D2).
    exists cc''. split; [done |]. split; congruence.
Qed.

Lemma frame_with_bindings c f s : frame c s (with_bindings c f s).
Proof.
  split; [intros c' H; by apply with_bindings_other | done |].
  intros cc H. eexists. by rewrite (with_bindings_same _ _ _ _ H).
Qed.

Lemma register_spec c r s u s' cc :
  containers s !! c = Some cc ->
  register c r s = Ok (u, s') ->
  frame c s s' /\
  forall x, own s' c x = registered (defaultScope cc) x r (own s c x).
Proof.
  intros Hc. destruct r as [y t sc | y | y t sc]; cbn [register registered].
  - intros (cc' & Hcc' & ->)%bind_inv. rewrite Hc in Hcc'. injection Hcc' as <-.
    split; [apply frame_with_bindings |]. intros x.
    rewrite own_with_bindings. unfold own. rewrite Hc. cbn.
    case_decide as E; [subst; by rewrite lookup_insert_eq |].
    by rewrite lookup_insert_ne.
  - intros [_ ->]%unbind_inv.
    split; [apply frame_with_bindings |]. intros x.
    rewrite own_with_bindings. unfold own. rewrite Hc. cbn.
    case_decide as E; [subst; by rewrite lookup_delete_eq |].
    by rewrite lookup_delete_ne.
  - unfold rebind. rewrite bind_M.
    destruct (unbind c y s) as [[[] s1]|] eqn:Eu; [|done].
    apply unbind_inv in Eu as [_ ->].
    intros (cc' & Hcc' & ->)%bind_inv.
    rewrite (with_bindings_same _ _ _ _ Hc) in Hcc'. injection Hcc' as <-.
    split.
    { eapply frame_trans; apply frame_with_bindings. }
    intros x. rewrite !own_with_bindings.
    rewrite (with_bindings_same _ _ _ _ Hc). unfold own. rewrite Hc. cbn.
    case_decide as E.
    + subst. by rewrite lookup_insert_eq, lookup_delete_eq.
    + by rewrite lookup_insert_ne, lookup_delete_ne.
Qed.

Lemma load_spec c module s u s' cc :
  containers s !! c = Some cc ->
  load c module s = Ok (u, s') ->
  frame c s s' /\
  forall x, own s' c x = registered_all (defaultScope cc) x module (own s c x).
Proof.
  revert s cc. induction module as [|r module IH]; intros s cc Hc; cbn [load].
  - intros [= _ <-]. split; [apply frame_refl | done].
  - rewrite bind_M. destruct (register c r s) as [[[] s1]|] eqn:Er; [|done].
    intros Hl. destruct (register_spec _ _ _ _ _ _ Hc Er) as [F1 O1].
    destruct (frame_container _ _ _ F1 cc Hc) as (cc1 & Hc1 & _ & D1).
    destruct (IH s1 cc1 Hc1 Hl) as [F2 O2]. split.
    + by eapply frame_trans.
    + intros x. rewrite O2, O1, D1. done.
Qed.

Lemma load_container c module s u s' :
  load c module s = Ok (u, s') -> module ≠ [] -> is_Some (containers s !! c).
Proof.
  destruct module as [|r module]; [done |]. intros H _. cbn [load] in H.
  rewrite bind_M in H.
  destruct (register c r s) as [[[] s1]|] eqn:Er; [|done].
  destruct r as [y t sc | y | y t sc]; cbn [register] in Er.
  - apply bind_inv in Er as (cc & -> & _). by eexists.
  - apply unbind_inv in Er as [[l Hl] _]. unfold own in Hl.
    destruct (containers s !! c); [by eexists | done].
  - unfold rebind in Er. rewrite bind_M in Er.
    destruct (unbind c y s) as [[[] s2]|] eqn:Eu; [|done].
    apply unbind_inv in Eu as [[l Hl] _]. unfold own in Hl.
    destruct (containers s !! c); [by eexists | done].
Qed.

Lemma bind_ext {A B} (m : M A) (k1 k2 : A -> M B) (s : store) :
  (forall a s', k1 a s' = k2 a s') -> (m ≫= k1) s = (m ≫= k2) s.
Proof.
  intros E. rewrite !bind_M. destruct (m s) as [[a s']|]; [apply E | done].
Qed.

Lemma load_cons_bind {B} c r module (k : M B) (s : store) :
  (load c (r :: module);; k) s = (register c r;; load c module;; k) s.
Proof.
  cbn [load]. rewrite !bind_M.
  destruct (register c r s) as [[[] s1]|]; [|done]. by rewrite bind_M.
Qed.

Lemma registered_container c r s u s' cc :
  containers s !! c = Some cc -> register c r s = Ok (u, s') ->
  exists cc', containers s' !! c = Some cc' /\ defaultScope cc' = defaultScope cc.
Proof.
  intros Hc Hr. destruct (register_spec _ _ _ _ _ _ Hc Hr) as [F _].
  destruct (frame_container _ _ _ F cc Hc) as (cc' & ? & _ & ?). eauto.
Qed.

Lemma loadable_ext d own1 own2 module :
  (forall x, own1 x = own2 x) -> loadable d own1 module -> loadable d own2 module.
Proof.
  revert own1 own2. induction module as [|r module IH]; intros own1 own2 E; [done |].
  cbn [loadable]. intros [H1 H2]. split.
  - destruct r; by rewrite <- ?E.
  - revert H2. apply IH. intros x. by rewrite E.
Qed.

(** A loadable module loads. *)
Lemma load_ok c module s cc :
  containers s !! c = Some cc ->
  loadable (defaultScope cc) (own s c) module ->
  exists s', load c module s = Ok (tt, s').
Proof.
  revert s cc. induction module as [|r module IH]; intros s cc Hc; cbn [load loadable].
  - intros _. by eexists.
  - intros [Hr Hm].
    assert (exists s1, register c r s = Ok (tt, s1)) as [s1 Hs1].
    { destruct r as [y t sc | y | y t sc]; cbn [register].
      - eexists. by apply bind_ok.
      - eexists. by apply unbind_ok.
      - unfold rebind. rewrite bind_M, (unbind_ok _ _ _ Hr).
        eexists. apply bind_ok. by apply with_bindings_same. }
    destruct (register_spec _ _ _ _ _ _ Hc Hs1) as [_ Ho].
    destruct (registered_container _ _ _ _ _ _ Hc Hs1) as (cc1 & Hc1 & D1).
    destruct (IH s1 cc1 Hc1) as [s' Hs'].
    { rewrite D1. revert Hm. apply loadable_ext. intros x. by rewrite Ho. }
    exists s'. by rewrite bind_M, Hs1.
Qed.

(** *** Loading, conversely *)

Lemma register_unbinds c r s u s' y :
  register c r s = Ok (u, s') -> unbinds r = Some y -> is_Some (own s c y).
Proof.
  destruct r as [x t sc | x | x t sc]; cbn [register unbinds]; [done | |].
  - intros [H _]%unbind_inv [= <-]. done.
  - unfold rebind. rewrite bind_M.
    destruct (unbind c x s) as [[[] s1]|] eqn:Eu; [|done].
    apply unbind_inv in Eu as [H _]. by intros _ [= <-].
Qed.

Lemma register_container c r s u s' :
  register c r s = Ok (u, s') -> is_Some (containers s !! c).
Proof.
  destruct r as [y t sc | y | y t sc]; cbn [register].
  - intros (cc & -> & _)%bind_inv. by eexists.
  - intros [[l Hl] _]%unbind_inv. unfold own in Hl.
    destruct (containers s !! c); [by eexists | done].
  - unfold rebind. rewrite bind_M.
    destruct (unbind c y s) as [[[] s2]|] eqn:Eu; [|done].
    apply unbind_inv in Eu as [[l Hl] _]. unfold own in Hl.
    destruct (containers s !! c); [by eexists | done].
Qed.

(** A module that loads was loadable. *)
Lemma load_loadable c module s u s' cc :
  containers s !! c = Some cc ->
  load c module s = Ok (u, s') ->
  loadable (defaultScope cc) (own s c) module.
Proof.
  revert s cc. induction module as [|r module IH]; intros s cc Hc; [done |].
  cbn [load loadable]. rewrite bind_M.
  destruct (register c r s) as [[[] s1]|] eqn:Er; [|done]. intros Hl.
  destruct (register_spec _ _ _ _ _ _ Hc Er) as [_ Ho].
  destruct (registered_container _ _ _ _ _ _ Hc Er) as (cc1 & Hc1 & D1).
  split.
  - destruct r as [y t sc | y | y t sc]; [done | |].
    + by apply (register_unbinds c (Unbind y) s tt s1).
    + by apply (register_unbinds c (Rebind y t sc) s tt s1).
  - pose proof (IH s1 cc1 Hc1 Hl) as H. rewrite D1 in H.
    revert H. apply loadable_ext. intros x. by rewrite Ho.
Qed.

Lemma load_app c m1 m2 s :
  load c (m1 ++ m2) s = (load c m1;; load c m2) s.
Proof.
  revert s. induction m1 as [|r m1 IH]; intros s; [done |].
  cbn [app load]. rewrite !bind_M.
  destruct (register c r s) as [[[] s1]|]; [|done].
  by rewrite IH, bind_M.
Qed.

(** Registrations that do not unbind [x] keep its bindings and add theirs
    behind them. *)
Lemma registered_all_keeps d x module l :
  Forall (fun r => unbinds r ≠ Some x) module ->
  exists l', registered_all d x module (Some l) = Some (l ++ l').
Proof.
  unfold registered_all. revert l.
  induction module as [|r module IH]; intros l H.
  - exists []. by rewrite app_nil_r.
  - apply Forall_cons in H as [Hr Hm]. cbn [foldl].
    assert (exists l1, registered d x r (Some l) = Some (l ++ l1)) as [l1 ->].
    { destruct r as [y t sc | y | y t sc]; cbn [registered unbinds] in *.
      - case_decide; [by eexists | exists []; by rewrite app_nil_r].
      - rewrite decide_False by congruence. exists []. by rewrite app_nil_r.
      - rewrite decide_False by congruence. exists []. by rewrite app_nil_r. }
    destruct (IH (l ++ l1) Hm) as [l2 ->]. exists (l1 ++ l2).
    by rewrite app_assoc.
Qed.

(** Registrations for other service identifiers leave the bindings of
    [x] as they are. *)
Lemma registered_all_other d x module o :
  Forall (fun r => registers r ≠ x) module ->
  registered_all d x module o = o.
Proof.
  unfold registered_all. revert o.
  induction module as [|r module IH]; intros o; [done |].
  intros [Hr Hm]%Forall_cons. cbn [foldl].
  assert (registered d x r o = o) as ->; [|by apply IH].
  destruct r as [y t sc | y | y t sc]; cbn [registered registers] in *;
    by rewrite decide_False.
Qed.

Lemma loadable_binds d f module :
  Forall (fun r => unbinds r = None) module -> loadable d f module.
Proof.
  revert f. induction module as [|r module IH]; intros f; [done |].
  intros [Hr Hm]%Forall_cons. cbn [loadable]. split; [|by apply IH].
  by destruct r.
Qed.

(** *** What requests keep *)



(** A singleton that has been activated is kept as it is by every
    request, on whatever container. *)
Lemma get_keeps_cached (fuel : nat) (c' : nat) (y : string) (s : store) w s'
    c x b v :
  own s c x = Some [b] -> inScope b = Singleton -> cache b = Some v ->
  get fuel c' y s = Ok (w, s') ->
  own s' c x = Some [b].
Proof.
  intros Hb Hs Hc.
  revert c' y s w s' Hb. induction fuel as [|fuel IH];
    intros c' y s w s' Hb H; [done |].
  apply get_inv in H as (fuel' & o & b' & [= <-] & _ & Hown & H).
  assert (Hgo : (inScope b' = Transient \/ cache b' = None) ->
                (exists s1, resolve (get fuel) c' b' s = Ok (w, s1) /\
                   activate o y b' w s1 = Ok (w, s')) ->
                own s' c x = Some [b]).
  { intros Hnc (s1 & Hr & Ha). apply activate_inv in Ha as [_ ->].
    apply resolve_inv in Hr.
    assert (H1 : own s1 c x = Some [b]).
    { destruct (target b');
        [by destruct Hr as [_ ->] | by eapply IH
        | by destruct Hr as [_ ->] ..]. }
    destruct (inScope b') eqn:Es; [done |].
    destruct Hnc as [? | Hnc]; [done |].
    rewrite own_set_cache_ne; [done |].
    intros [= -> ->]. rewrite Hb in Hown. injection Hown as <-. congruence. }
  destruct (inScope b'); [auto |]. destruct (cache b'); [|auto].
  by destruct H as [_ ->].
Qed.


Lemma resolves_keeps_cached (c0 : nat) (s s' : store) c x b v :
  own s c x = Some [b] -> inScope b = Singleton -> cache b = Some v ->
  resolves c0 s s' -> own s' c x = Some [b].
Proof.
  intros Hb Hs Hc R. revert Hb.
  induction R as [|fuel y w s s' s'' H _ IH]; [done |].
  intros Hb. apply IH. by eapply get_keeps_cached.
Qed.

(** A request for a singleton class leaves its value in the cache. *)
Lemma get_singleton_class (fuel : nat) (c : nat) (x k : string) (s : store)
    b v s' :
  own s c x = Some [b] -> target b = ToClass k -> inScope b = Singleton ->
  get fuel c x s = Ok (v, s') ->
  exists b', own s' c x = Some [b'] /\ inScope b' = Singleton /\
             cache b' = Some v.
Proof.
  intros Hb Ht Hs H.
  apply get_inv in H as (fuel' & o & b0 & -> & Hgb & Hown & H).
  rewrite (getBindings_own _ _ _ _ _ Hb) in Hgb. injection Hgb as <- <-.
  rewrite Hs in H. destruct (cache b) as [w|] eqn:Ec.
  - destruct H as [-> ->]. by exists b.
  - destruct H as (s1 & Hr & Ha).
    apply resolve_inv in Hr. rewrite Ht in Hr. destruct Hr as [-> ->].
    apply activate_inv in Ha as [_ ->]. rewrite Hs.
    eexists. rewrite own_set_cache_eq, own_new_identity, Hb. by split.
Qed.

(** *** A service identifier bound to the singleton of another *)

Section Alias.
Variable c : nat.
Variables a t : string.
Hypothesis a_not_t : a ≠ t.

Lemma aliased_ext (s s' : store) :
  own s' c a = own s c a -> own s' c t = own s c t ->
  aliased c a t s -> aliased c a t s'.
Proof. intros Ea Et [H1 H2 H3 H4]. split; by rewrite ?Ea, ?Et. Qed.

Lemma singleton_of_map_set_cached v (o : option (list binding)) b :
  map (set_cached v) <$> o = Some [b] ->
  exists b0, o = Some [b0] /\ b = set_cached v b0.
Proof.
  destruct o as [[|b0 [|b1 l]]|]; try done. intros [= <-]. by exists b0.
Qed.

Lemma get_service (fuel : nat) (s : store) v s' :
  aliased c a t s ->
  get fuel c t s = Ok (v, s') ->
  exists bt, own s' c t = Some [bt] /\ cache bt = Some v.
Proof.
  intros [_ _ [l Hl] Ht] H.
  pose proof H as Hinv.
  apply get_inv in Hinv as (fuel' & o & b & -> & Hgb & Hown & _).
  rewrite (getBindings_own _ _ _ _ _ Hl) in Hgb. injection Hgb as <- ->.
  destruct (Ht b Hl) as [Hc Hs].
  destruct (get_singleton_class _ _ _ _ _ _ _ _ Hl Hc Hs H) as (b' & ? & _ & ?).
  by exists b'.
Qed.

(** Requests made on the container keep [aliased]. *)
Lemma get_aliased (fuel : nat) (x : string) (s : store) v s' :
  aliased c a t s -> get fuel c x s = Ok (v, s') -> aliased c a t s'.
Proof.
  revert x s v s'. induction fuel as [|fuel IH]; intros x s v s' Hl H; [done |].
  apply get_inv in H as (fuel' & o & b & [= <-] & Hgb & Hown & H).
  assert (Hgo : (inScope b = Transient \/ cache b = None) ->
                (exists s1, resolve (get fuel) c b s = Ok (v, s1) /\
                            activate o x b v s1 = Ok (v, s')) ->
                aliased c a t s').
  { clear H. intros Hnc (s1 & Hr & Ha).
    apply activate_inv in Ha as [_ ->].
    pose proof (resolve_inv _ _ _ _ _ _ Hr) as Hr'.
    assert (Hl1 : aliased c a t s1).
    { destruct (target b).
      - destruct Hr' as [_ ->]. revert Hl. by apply aliased_ext.
      - by eapply IH.
      - by destruct Hr' as [_ ->].
      - by destruct Hr' as [_ ->].
      - by destruct Hr' as [_ ->]. }
    destruct (inScope b) eqn:Es; [done |].
    destruct Hnc as [? | Hnc]; [done |].
    destruct (decide ((o, x) = (c, a))) as [[= -> ->] | Na].
    { pose proof Hl as [_ Ha _ _]. destruct (Ha b Hown) as [Ht _].
      rewrite Ht in Hr'.
      destruct (get_service fuel s v s1 Hl Hr') as (bt & Hbt & Hcv).
      destruct Hl1 as [[l1 E1] A1 S1 T1].
      split; rewrite ?own_set_cache_eq;
        rewrite ?own_set_cache_ne by (intros [= ?]; done); try done.
      - rewrite E1. by eexists.
      - intros ba (b0 & Hb0 & ->)%singleton_of_map_set_cached.
        destruct (A1 b0 Hb0) as [Ht0 _]. split; [done |].
        intros w [= <-]. by exists bt. }
    destruct (decide ((o, x) = (c, t))) as [[= -> ->] | Nt].
    { pose proof Hl as [_ Ha _ Hs]. destruct (Hs b Hown) as [Ht _].
      rewrite Ht in Hr'. destruct Hr' as [_ ->].
      destruct Hl as [[la Ea] A0 [lt Et] T0].
      split; rewrite ?own_set_cache_eq;
        rewrite ?own_set_cache_ne by (intros [= ?]; done);
        rewrite ?own_new_identity.
      - rewrite Ea. by eexists.
      - intros ba Hba.
        destruct (A0 ba Hba) as [Hta Hca]. split; [done |].
        intros w Hw. destruct (Hca w Hw) as (bt & Hbt & Hcw).
        rewrite Hown in Hbt. injection Hbt as <-. congruence.
      - rewrite Et. by eexists.
      - intros bt (b0 & Hb0 & ->)%singleton_of_map_set_cached.
        exact (T0 b0 Hb0). }
    revert Hl1. apply aliased_ext; by apply own_set_cache_ne. }
  destruct (inScope b); [auto |]. destruct (cache b); [|auto].
  by destruct H as [_ ->].
Qed.

Lemma resolves_aliased (s s' : store) :
  resolves c s s' -> aliased c a t s -> aliased c a t s'.
Proof.
  induction 1 as [|fuel x v s s' s'' H _ IH]; [done |].
  intros Hl. apply IH. by eapply get_aliased.
Qed.

(** What a request for the alias returns is in the cache of the service. *)
Lemma get_alias (fuel : nat) (s : store) v s' :
  aliased c a t s ->
  get fuel c a s = Ok (v, s') ->
  exists bt, own s' c t = Some [bt] /\ inScope bt = Singleton /\
             cache bt = Some v.
Proof.
  intros Hl H. pose proof (get_aliased _ _ _ _ _ Hl H) as Hl'.
  pose proof Hl as [[la Ea] A0 _ _].
  pose proof H as Hinv.
  apply get_inv in Hinv as (fuel' & o & b & -> & Hgb & Hown & Hcase).
  rewrite (getBindings_own _ _ _ _ _ Ea) in Hgb. injection Hgb as <- ->.
  destruct (A0 b Ea) as [Ht Hc].
  assert (Hgo : (exists s1, resolve (get fuel') c b s = Ok (v, s1) /\
                   activate c a b v s1 = Ok (v, s')) ->
                exists bt, own s' c t = Some [bt] /\ cache bt = Some v).
  { intros (s1 & Hr & Hact). apply activate_inv in Hact as [_ ->].
    apply resolve_inv in Hr. rewrite Ht in Hr.
    destruct (get_service _ _ _ _ Hl Hr) as (bt & Hbt & Hcv).
    exists bt. destruct (inScope b); [done |].
    by rewrite own_set_cache_ne by (intros [= ?]; done). }
  assert (exists bt, own s' c t = Some [bt] /\ cache bt = Some v)
    as (bt & Hbt & Hcv).
  { destruct (inScope b); [auto |]. destruct (cache b) as [w|] eqn:Ec; [|auto].
    destruct Hcase as [-> ->]. by apply Hc. }
  exists bt. destruct Hl' as [_ _ _ T']. by destruct (T' bt Hbt).
Qed.
End Alias.

End InversifyFacts.

(** ** The monaco frontend module *)

Module MonacoFacts.
Import Inversify InversifyFacts Monaco.

Section Loaded.
Variable c : nat.















End Loaded.
Lemma app_singleton {A} (l : list A) (b b' : A) :
  l ++ [b] = [b'] -> l = [] /\ b = b'.
Proof.
  destruct l as [|a [|a' l]]; cbn; [by intros [= ->] | done | done].
Qed.





(** On the fixture: the alias and the service are one instance, the two
    command services are two. *)
Example monaco_requests :
  value_of (a ← get 2 0 "QuickOpenService";
            b ← get 1 0 "MonacoQuickOpenService";
            f ← get 1 0 "MonacoCommandServiceFactory";
            x ← invoke 1 f;
            y ← invoke 1 f;
            mret (a, b, f, x, y)) loadedFixture
  = Some (Instance "MonacoQuickOpenService" 0,
          Instance "MonacoQuickOpenService" 0,
          Factory 0 "MonacoCommandService",
          Instance "MonacoCommandService" 1,
          Instance "MonacoCommandService" 2).
Proof. by vm_compute. Qed.

(** *** Loading the module *)

Lemma module_binds_then_rebinds :
  monaco_frontend_module =
    firstn 18 monaco_frontend_module ++
    [ Rebind "QuickOpenService" (ToDynamicValue "MonacoQuickOpenService")
        (Some Singleton) ] /\
  Forall (fun r => unbinds r = None) (firstn 18 monaco_frontend_module) /\
  Forall (fun r => registers r ≠ "QuickOpenService")
         (firstn 18 monaco_frontend_module).
Proof.
  split; [reflexivity |].
  split; cbn [firstn monaco_frontend_module]; unfold toSelf;
    repeat (constructor; [done |]); constructor.
Qed.

(** X12. Loading the module into a container succeeds when the container
    already binds [QuickOpenService], and otherwise throws at the rebinding,
    after all other registrations, with "cannot unbind QuickOpenService". *)
Theorem monaco_module_needs_QuickOpenService
    (c : nat) (s : store) (cc : container) :
  containers s !! c = Some cc ->
  (is_Some (bindings cc !! "QuickOpenService") ->
     exists s', load c monaco_frontend_module s = Ok (tt, s')) /\
  (bindings cc !! "QuickOpenService" = None ->
     load c monaco_frontend_module s = Err (CannotUnbind "QuickOpenService")).
Proof.
  intros Hc. destruct module_binds_then_rebinds as (Em & Hb & Hq).
  assert (Hown : own s c "QuickOpenService" = bindings cc !! "QuickOpenService").
  { unfold own. by rewrite Hc. }
  destruct (load_ok c (firstn 18 monaco_frontend_module) s cc Hc) as [s1 H1];
    [by apply loadable_binds |].
  destruct (load_spec _ _ _ _ _ _ Hc H1) as [[_ _ Fc] Ho].
  destruct (Fc cc Hc) as (cc1 & Hc1 & _ & D1).
  specialize (Ho "QuickOpenService").
  rewrite registered_all_other in Ho by done.
  rewrite Em, load_app, bind_M, H1. cbn [load register]. rewrite bind_M.
  unfold rebind. rewrite bind_M. split.
  - intros Hs. rewrite unbind_ok by by rewrite Ho, Hown.
    erewrite bind_ok by by apply with_bindings_same. by eexists.
  - intros Hn. unfold unbind. by rewrite Ho, Hown, Hn.
Qed.

Lemma monaco_module_needs_QuickOpenService_witness :
  exists s', load 0 monaco_frontend_module frontendFixture = Ok (tt, s').
Proof.
  refine (proj1 (monaco_module_needs_QuickOpenService 0 frontendFixture
    {| parent := None; defaultScope := Transient;
       bindings := {[ "QuickOpenService" :=
         [ {| target := ToClass "QuickOpenService";
              inScope := Singleton; cache := None |} ] ]} |} _) _).
  - reflexivity.
  - by vm_compute; eexists.
Defined.

(** X13. Loading the module takes no binding away but those of
    [QuickOpenService]: the bindings that the container had for any other
    service identifier are still there, in front of the new ones; no other
    container changes, and no instance is made. *)
Theorem monaco_module_only_adds (c : nat) (s s' : store) u :
  load c monaco_frontend_module s = Ok (u, s') ->
  (forall x l, x ≠ "QuickOpenService" -> own s c x = Some l ->
     exists l', own s' c x = Some (l ++ l')) /\
  (forall c', c' ≠ c -> containers s' !! c' = containers s !! c') /\
  next_identity s' = next_identity s.
Proof.
  intros H. destruct (load_container _ _ _ _ _ H) as [cc Hc]; [done |].
  destruct (load_spec _ _ _ _ _ _ Hc H) as [[Fo Fi _] Ho].
  split; [|split; [|done]].
  - intros x l Hx Hl. rewrite Ho, Hl. apply registered_all_keeps.
    destruct module_binds_then_rebinds as (Em & Hb & _). rewrite Em.
    apply Forall_app. split.
    + eapply Forall_impl; [exact Hb |]. intros r Hr. by rewrite Hr.
    + constructor; [cbn; by intros [= <-] | constructor].
  - intros c' Hc'. by apply Fo.
Qed.

Lemma monaco_module_only_adds_witness :
  load 0 monaco_frontend_module frontendFixture = Ok (tt, loadedFixture) /\
  next_identity loadedFixture = next_identity frontendFixture.
Proof.
  assert (H : load 0 monaco_frontend_module frontendFixture
              = Ok (tt, loadedFixture)) by (by vm_compute).
  split; [exact H |].
  by destruct (monaco_module_only_adds 0 frontendFixture loadedFixture tt H)
    as (_ & _ & ?).
Defined.

(** *** The singletons of the module *)

Lemma singleton_registered (d : scope) (x : string) o :
  x ∈ singleton_services ->
  registered_all d x monaco_frontend_module o =
    Some (default [] o ++
          [ {| target := ToClass x; inScope := Singleton; cache := None |} ]).
Proof.
  unfold singleton_services. rewrite !elem_of_cons.
  intros H. repeat (destruct H as [-> | H]; [reflexivity |]).
  by apply elem_of_nil in H.
Qed.




(** *** The aliases of the module *)

Lemma alias_registered (d : scope) (a t : string) o :
  (a, t) ∈ service_aliases ->
  a ≠ t /\ t ∈ singleton_services /\
  registered_all d a monaco_frontend_module o =
    Some (default [] o ++
          [ {| target := ToDynamicValue t; inScope := d; cache := None |} ]).
Proof.
  unfold service_aliases. rewrite !elem_of_cons.
  intros [[= -> ->] | [[= -> ->] | H]]; [| | by apply elem_of_nil in H];
    (split; [done |]); (split; [repeat constructor | reflexivity]).
Qed.

Lemma load_aliased (c : nat) (s0 s1 : store) u (a t : string) :
  load c monaco_frontend_module s0 = Ok (u, s1) ->
  (a, t) ∈ service_aliases ->
  a ≠ t /\ aliased c a t s1.
Proof.
  intros Hload Hat.
  destruct (load_container _ _ _ _ _ Hload) as [cc Hc]; [done |].
  destruct (load_spec _ _ _ _ _ _ Hc Hload) as [_ Ho].
  destruct (alias_registered (defaultScope cc) a t (own s0 c a) Hat)
    as (Hne & Ht & Ha).
  split; [done |].
  split; rewrite ?Ho, ?Ha, ?(singleton_registered _ _ _ Ht).
  - by eexists.
  - intros ba [= E]. apply app_singleton in E as [_ <-]. done.
  - by eexists.
  - intros bt [= E]. apply app_singleton in E as [_ <-]. done.
Qed.

(** X15. [Languages] is the [MonacoLanguages] singleton and [Workspace] the
    [MonacoWorkspace] singleton: once a request on the container has
    returned one of the two, every later request for the other returns the
    same instance, in whichever order they are made and whatever the default
    scope of the container. *)
Theorem service_aliases_same_instance
    (c : nat) (s0 s1 s : store) u (a t : string) :
  load c monaco_frontend_module s0 = Ok (u, s1) ->
  (a, t) ∈ service_aliases ->
  resolves c s1 s ->
  (forall fuel v s', get fuel c a s = Ok (v, s') ->
     forall s'' fuel', resolves c s' s'' ->
       get (S fuel') c t s'' = Ok (v, s'')) /\
  (forall fuel v s', get fuel c t s = Ok (v, s') ->
     forall s'' fuel' w s3, resolves c s' s'' ->
       get fuel' c a s'' = Ok (w, s3) -> w = v).
Proof.
  intros Hload Hat R.
  destruct (load_aliased c s0 s1 u a t Hload Hat) as [Hne Hl1].
  pose proof (resolves_aliased c a t Hne s1 s R Hl1) as Hl.
  split.
  - intros fuel v s' H s'' fuel' R'.
    destruct (get_alias c a t Hne _ _ _ _ Hl H) as (bt & Hbt & Hs & Hc).
    eapply get_cached; [|done..].
    by eapply resolves_keeps_cached.
  - intros fuel v s' H s'' fuel' w s3 R' H'.
    pose proof (get_aliased c a t Hne _ _ _ _ _ Hl H) as Hl'.
    destruct (get_service c a t _ _ _ _ Hl H) as (bt & Hbt & Hc).
    pose proof Hl' as [_ _ _ T']. destruct (T' bt Hbt) as [_ Hs].
    pose proof (resolves_keeps_cached c s' s'' c t bt v Hbt Hs Hc R') as Hbt''.
    pose proof (get_keeps_cached _ _ _ _ _ _ c t bt v Hbt'' Hs Hc H') as Hbt3.
    pose proof (resolves_aliased c a t Hne s' s'' R' Hl') as Hl''.
    destruct (get_alias c a t Hne _ _ _ _ Hl'' H') as (bt' & Hbt' & _ & Hc').
    congruence.
Qed.

Lemma service_aliases_same_instance_witness :
  exists v s', get 2 0 "Languages" loadedFixture = Ok (v, s') /\
               get 1 0 "MonacoLanguages" s' = Ok (v, s').
Proof.
  assert (H : load 0 monaco_frontend_module frontendFixture
              = Ok (tt, loadedFixture)) by (by vm_compute).
  destruct (get 2 0 "Languages" loadedFixture) as [[v s']|] eqn:E;
    [| by vm_compute in E].
  exists v, s'. split; [done |].
  destruct (service_aliases_same_instance 0 frontendFixture loadedFixture
              loadedFixture tt "Languages" "MonacoLanguages" H)
    as [H1 _]; [repeat constructor | constructor |].
  apply (H1 2 v s' E s' 0). constructor.
Defined.

End MonacoFacts.

(** ** The problem tree container *)

Module ProblemFacts.
Import Inversify InversifyFacts Problem.

Section Container.
Variable defaultTreeProps : gmap string jsval.
Variable MARKER_CONTEXT_MENU : jsval.
Variable createTreeContainer : nat -> M nat.

(** The calls on [child] are the registrations, run in order. *)
Lemma createProblemTreeContainer_load (parent : nat) (s : store) :
  createProblemTreeContainer defaultTreeProps MARKER_CONTEXT_MENU
    createTreeContainer parent s =
    (child ← createTreeContainer parent;
     load child
       (problem_tree_registrations defaultTreeProps MARKER_CONTEXT_MENU);;
     mret child) s.
Proof.
  unfold Problem.createProblemTreeContainer.
  apply bind_ext. intros child s1. unfold Problem.problem_tree_registrations.
  symmetry.
  repeat (rewrite load_cons_bind; apply bind_ext; intros [] ?).
  reflexivity.
Qed.

(** Requests on a container that holds one uncached class binding, or one
    uncached dynamic value that leads to such a class. *)
Lemma get_class (fuel : nat) (c : nat) (x k : string) (s : store) d :
  own s c x = Some [ {| target := ToClass k; inScope := d; cache := None |} ] ->
  exists s', get (S fuel) c x s = Ok (Instance k (next_identity s), s') /\
             forall c' y, (c', y) ≠ (c, x) -> own s' c' y = own s c' y.
Proof.
  intros Ho. eexists. split.
  - eapply get_fresh; [done | by right | reflexivity].
  - intros c' y Hne. cbn [inScope].
    destruct d; [done |]. by rewrite own_set_cache_ne.
Qed.

Lemma get_dynamic_class (fuel : nat) (c : nat) (x y k : string) (s : store) d d' :
  x ≠ y ->
  own s c x = Some [ {| target := ToDynamicValue y; inScope := d; cache := None |} ] ->
  own s c y = Some [ {| target := ToClass k; inScope := d'; cache := None |} ] ->
  exists s', get (S (S fuel)) c x s = Ok (Instance k (next_identity s), s').
Proof.
  intros Hne Hx Hy. destruct (get_class fuel c y k s d' Hy) as (s1 & Hg & _).
  eexists. eapply get_fresh; [done | by right | exact Hg].
Qed.

Lemma get_constant (fuel : nat) (c : nat) (x : string) (s : store) obj d :
  own s c x = Some [ {| target := ToConstantValue obj; inScope := d; cache := None |} ] ->
  exists s', get (S fuel) c x s = Ok (Constant obj, s').
Proof.
  intros Ho. eexists. eapply get_fresh; [done | by right | reflexivity].
Qed.

(** The registrations run when the six service identifiers of the tree
    container are bound. *)
Lemma registrations_loadable (d : scope) (f : string -> option (list binding)) :
  (forall x, x ∈ ["Tree"; "ITree"; "TreeWidget"; "TreeModel"; "ITreeModel";
                  "TreeProps"] -> is_Some (f x)) ->
  loadable d f (problem_tree_registrations defaultTreeProps MARKER_CONTEXT_MENU).
Proof.
  intros H.
  assert (H1 := H "Tree"). assert (H2 := H "ITree").
  assert (H3 := H "TreeWidget"). assert (H4 := H "TreeModel").
  assert (H5 := H "ITreeModel"). assert (H6 := H "TreeProps").
  rewrite !elem_of_cons in H1, H2, H3, H4, H5, H6.
  cbn [loadable problem_tree_registrations registered].
  repeat split; repeat case_decide; try done; auto 10.
Qed.

(** The bindings of the child after the registrations. *)
Lemma registrations_own (d : scope) :
  let after x o :=
    registered_all d x
      (problem_tree_registrations defaultTreeProps MARKER_CONTEXT_MENU) o in
  (forall o, after "ITree" o =
     Some [ {| target := ToDynamicValue "ProblemTree"; inScope := d;
               cache := None |} ]) /\
  (forall o, after "ITreeModel" o =
     Some [ {| target := ToDynamicValue "ProblemTreeModel"; inScope := d;
               cache := None |} ]) /\
  (forall o, after "TreeProps" o =
     Some [ {| target := ToConstantValue
                 (MARKER_TREE_PROPS defaultTreeProps MARKER_CONTEXT_MENU);
               inScope := d; cache := None |} ]) /\
  (forall o, after "TreeWidget" o = None) /\
  (forall k, k ∈ ["ProblemTree"; "ProblemWidget"; "ProblemTreeModel"] ->
     after k None =
       Some [ {| target := ToClass k; inScope := d; cache := None |} ]).
Proof.
  cbn zeta. repeat split; try reflexivity.
  intros k Hk. rewrite !elem_of_cons in Hk.
  destruct Hk as [-> | [-> | [-> | Hk]]]; [reflexivity .. |].
  by apply elem_of_nil in Hk.
Qed.

(** C4. For every parent container: when [createTreeContainer] returns a
    child of the parent that binds the tree, the model, the widget and the
    properties (and none of the problem classes), and leaves the parent as
    it is, [createProblemTreeContainer] returns that child, in which [ITree]
    resolves to an instance of [ProblemTree], [ITreeModel] to an instance of
    [ProblemTreeModel], [TreeWidget] is unbound and [ProblemWidget] bound to
    itself, and [TreeProps] resolves to [MARKER_TREE_PROPS], which is
    [defaultTreeProps] with [contextMenuPath] set to [MARKER_CONTEXT_MENU];
    the child is still a child of the parent, and the parent and every other
    container are unchanged. *)
Theorem createProblemTreeContainer_rebinds
    (parent : nat) (s s1 : store) (child : nat) (cc : container) :
  createTreeContainer parent s = Ok (child, s1) ->
  child ≠ parent ->
  containers s1 !! child = Some cc ->
  Inversify.parent cc = Some parent ->
  containers s1 !! parent = containers s !! parent ->
  (forall x, x ∈ ["Tree"; "ITree"; "TreeWidget"; "TreeModel"; "ITreeModel";
                  "TreeProps"] -> is_Some (bindings cc !! x)) ->
  (forall x, x ∈ ["ProblemTree"; "ProblemWidget"; "ProblemTreeModel"] ->
             bindings cc !! x = None) ->
  exists s2,
    createProblemTreeContainer defaultTreeProps MARKER_CONTEXT_MENU
      createTreeContainer parent s = Ok (child, s2) /\
    (forall fuel, exists i s3,
       get (S (S fuel)) child "ITree" s2 = Ok (Instance "ProblemTree" i, s3)) /\
    (forall fuel, exists i s3,
       get (S (S fuel)) child "ITreeModel" s2
       = Ok (Instance "ProblemTreeModel" i, s3)) /\
    own s2 child "TreeWidget" = None /\
    (forall fuel, exists i s3,
       get (S fuel) child "ProblemWidget" s2
       = Ok (Instance "ProblemWidget" i, s3)) /\
    (forall fuel, exists s3,
       get (S fuel) child "TreeProps" s2
       = Ok (Constant (MARKER_TREE_PROPS defaultTreeProps MARKER_CONTEXT_MENU),
             s3)) /\
    MARKER_TREE_PROPS defaultTreeProps MARKER_CONTEXT_MENU
    = <["contextMenuPath" := MARKER_CONTEXT_MENU]> defaultTreeProps /\
    (exists cc2, containers s2 !! child = Some cc2 /\
                 Inversify.parent cc2 = Some parent) /\
    containers s2 !! parent = containers s !! parent /\
    (forall c', c' ≠ child -> containers s2 !! c' = containers s1 !! c').
Proof.
  intros Hct Hne Hc Hp Hpar Hbound Hfree.
  assert (Hown : forall x, own s1 child x = bindings cc !! x).
  { intros x. unfold own. by rewrite Hc. }
  destruct (load_ok child
    (problem_tree_registrations defaultTreeProps MARKER_CONTEXT_MENU) s1 cc Hc)
    as [s2 Hs2].
  { apply registrations_loadable. intros x Hx. rewrite Hown. by apply Hbound. }
  destruct (load_spec _ _ _ _ _ _ Hc Hs2) as [[Fo Fi Fc] Ho].
  destruct (registrations_own (defaultScope cc)) as (O1 & O2 & O3 & O4 & O5).
  cbn zeta in *.
  assert (Hk : forall k, k ∈ ["ProblemTree"; "ProblemWidget"; "ProblemTreeModel"] ->
    own s2 child k = Some [ {| target := ToClass k;
                               inScope := defaultScope cc; cache := None |} ]).
  { intros k Hk. by rewrite Ho, Hown, (Hfree k Hk), O5. }
  exists s2. split.
  { rewrite createProblemTreeContainer_load, bind_M, Hct, bind_M, Hs2. done. }
  split.
  { intros fuel. eexists.
    eapply (get_dynamic_class fuel child "ITree" "ProblemTree"); [done | |].
    - by rewrite Ho, O1.
    - apply Hk. repeat constructor. }
  split.
  { intros fuel. eexists.
    eapply (get_dynamic_class fuel child "ITreeModel" "ProblemTreeModel");
      [done | |].
    - by rewrite Ho, O2.
    - apply Hk. repeat constructor. }
  split; [by rewrite Ho, O4 |].
  split.
  { intros fuel. eexists.
    destruct (get_class fuel child "ProblemWidget" "ProblemWidget" s2
                (defaultScope cc)) as (s3 & Hg & _); [apply Hk; repeat constructor |].
    eauto. }
  split.
  { intros fuel. eapply get_constant. by rewrite Ho, O3. }
  split; [done |].
  split.
  { destruct (Fc cc Hc) as (cc2 & Hc2 & P2 & _). exists cc2. by rewrite P2. }
  split; [by rewrite Fo |].
  intros c' Hc'. by apply Fo.
Qed.

(** *** When the calls fail, and what else they bind *)

Lemma registrations_loadable_inv (d : scope)
    (f : string -> option (list binding)) :
  loadable d f (problem_tree_registrations defaultTreeProps MARKER_CONTEXT_MENU) ->
  forall x, x ∈ ["Tree"; "ITree"; "TreeWidget"; "TreeModel"; "ITreeModel";
                 "TreeProps"] -> is_Some (f x).
Proof.
  cbn [loadable problem_tree_registrations registered].
  rewrite !decide_False by done.
  intros (H1 & _ & H2 & H3 & _ & H4 & _ & H5 & _ & H6 & _) x Hx.
  rewrite !elem_of_cons in Hx.
  destruct Hx as [-> | [-> | [-> | [-> | [-> | [-> | Hx]]]]]]; try done.
  by apply elem_of_nil in Hx.
Qed.

(** X16. [createProblemTreeContainer] returns exactly when the container
    that [createTreeContainer] made binds [Tree], [ITree], [TreeWidget],
    [TreeModel], [ITreeModel] and [TreeProps]; when one of them is not bound
    an [unbind] or [rebind] throws. *)
Theorem createProblemTreeContainer_needs_tree_bindings
    (parent : nat) (s s1 : store) (child : nat) (cc : container) :
  createTreeContainer parent s = Ok (child, s1) ->
  containers s1 !! child = Some cc ->
  (exists s2,
     createProblemTreeContainer defaultTreeProps MARKER_CONTEXT_MENU
       createTreeContainer parent s = Ok (child, s2)) <->
  (forall x, x ∈ ["Tree"; "ITree"; "TreeWidget"; "TreeModel"; "ITreeModel";
                  "TreeProps"] -> is_Some (bindings cc !! x)).
Proof.
  intros Hct Hc.
  assert (Hown : forall x, own s1 child x = bindings cc !! x).
  { intros x. unfold own. by rewrite Hc. }
  rewrite createProblemTreeContainer_load, bind_M, Hct, bind_M. split.
  - intros [s2 H] x Hx. rewrite <- Hown.
    destruct (load child _ s1) as [[[] s2']|] eqn:El; [|done].
    apply (registrations_loadable_inv (defaultScope cc)); [|done].
    by eapply load_loadable.
  - intros Hb.
    destruct (load_ok child
      (problem_tree_registrations defaultTreeProps MARKER_CONTEXT_MENU) s1 cc Hc)
      as [s2 ->]; [|by eexists].
    apply registrations_loadable. intros x Hx. rewrite Hown. by apply Hb.
Qed.

(** X17. After [createProblemTreeContainer] the child binds none of
    [Tree], [TreeModel] and [TreeWidget]: when the parent, a container
    without parent, does not bind one of them either, a request for it on
    the child throws "no matching bindings". *)
Theorem createProblemTreeContainer_unbinds_tree
    (parent : nat) (s s1 : store) (child : nat) (cc pc : container)
    (x : string) :
  createTreeContainer parent s = Ok (child, s1) ->
  child ≠ parent ->
  containers s1 !! child = Some cc ->
  Inversify.parent cc = Some parent ->
  containers s1 !! parent = Some pc ->
  Inversify.parent pc = None ->
  (forall y, y ∈ ["Tree"; "ITree"; "TreeWidget"; "TreeModel"; "ITreeModel";
                  "TreeProps"] -> is_Some (bindings cc !! y)) ->
  x ∈ ["Tree"; "TreeModel"; "TreeWidget"] ->
  bindings pc !! x = None ->
  exists s2,
    createProblemTreeContainer defaultTreeProps MARKER_CONTEXT_MENU
      createTreeContainer parent s = Ok (child, s2) /\
    own s2 child x = None /\
    forall fuel, get (S fuel) child x s2 = Err (NoMatchingBindings x).
Proof.
  intros Hct Hne Hc Hp Hpc Hroot Hbound Hx Hnone.
  assert (Hown : forall y, own s1 child y = bindings cc !! y).
  { intros y. unfold own. by rewrite Hc. }
  destruct (load_ok child
    (problem_tree_registrations defaultTreeProps MARKER_CONTEXT_MENU) s1 cc Hc)
    as [s2 Hs2].
  { apply registrations_loadable. intros y Hy. rewrite Hown. by apply Hbound. }
  destruct (load_spec _ _ _ _ _ _ Hc Hs2) as [[Fo Fi Fc] Ho].
  exists s2. split.
  { rewrite createProblemTreeContainer_load, bind_M, Hct, bind_M, Hs2. done. }
  assert (Hx2 : own s2 child x = None).
  { rewrite Ho. rewrite !elem_of_cons in Hx.
    destruct Hx as [-> | [-> | [-> | Hx]]]; [reflexivity .. |].
    by apply elem_of_nil in Hx. }
  split; [done |]. intros fuel. cbn [get].
  assert (getBindings fuel s2 child x = None) as ->; [|done].
  destruct (Fc cc Hc) as (cc2 & Hc2 & P2 & _).
  unfold own in Hx2. rewrite Hc2 in Hx2. cbn in Hx2.
  destruct fuel as [|fuel]; cbn [getBindings]; rewrite Hc2, Hx2, P2, Hp; [done |].
  destruct fuel; cbn [getBindings]; by rewrite (Fo parent Hne), Hpc, Hnone, Hroot.
Qed.

(** X18. After [createProblemTreeContainer], when the tree container had
    bound neither of them, [MarkerOptions] resolves on the child to the
    object whose [kind] is ['problem'] and [MarkerTreeServices] to an
    instance of itself. *)
Theorem createProblemTreeContainer_marker_bindings
    (parent : nat) (s s1 : store) (child : nat) (cc : container) :
  createTreeContainer parent s = Ok (child, s1) ->
  containers s1 !! child = Some cc ->
  (forall y, y ∈ ["Tree"; "ITree"; "TreeWidget"; "TreeModel"; "ITreeModel";
                  "TreeProps"] -> is_Some (bindings cc !! y)) ->
  bindings cc !! "MarkerOptions" = None ->
  bindings cc !! "MarkerTreeServices" = None ->
  exists s2,
    createProblemTreeContainer defaultTreeProps MARKER_CONTEXT_MENU
      createTreeContainer parent s = Ok (child, s2) /\
    (forall fuel, exists s3,
       get (S fuel) child "MarkerOptions" s2
       = Ok (Constant {[ "kind" := JString "problem" ]}, s3)) /\
    (forall fuel, exists i s3,
       get (S fuel) child "MarkerTreeServices" s2
       = Ok (Instance "MarkerTreeServices" i, s3)).
Proof.
  intros Hct Hc Hbound Hmo Hms.
  assert (Hown : forall y, own s1 child y = bindings cc !! y).
  { intros y. unfold own. by rewrite Hc. }
  destruct (load_ok child
    (problem_tree_registrations defaultTreeProps MARKER_CONTEXT_MENU) s1 cc Hc)
    as [s2 Hs2].
  { apply registrations_loadable. intros y Hy. rewrite Hown. by apply Hbound. }
  destruct (load_spec _ _ _ _ _ _ Hc Hs2) as [_ Ho].
  exists s2. split.
  { rewrite createProblemTreeContainer_load, bind_M, Hct, bind_M, Hs2. done. }
  split.
  - intros fuel. eapply get_constant. rewrite Ho, Hown, Hmo. reflexivity.
  - intros fuel.
    destruct (get_class fuel child "MarkerTreeServices" "MarkerTreeServices" s2
                (defaultScope cc)) as (s3 & Hg & _); [|eauto].
    rewrite Ho, Hown, Hms. reflexivity.
Qed.

(** X21. [createProblemWidget] returns a new [ProblemWidget] when the tree
    container binds the six tree services and no [ProblemWidget] yet; when
    one of the six is not bound it throws what [createProblemTreeContainer]
    throws. *)
Theorem createProblemWidget_new_widget
    (fuel : nat) (parent : nat) (s s1 : store) (child : nat) (cc : container) :
  createTreeContainer parent s = Ok (child, s1) ->
  containers s1 !! child = Some cc ->
  bindings cc !! "ProblemWidget" = None ->
  ((forall y, y ∈ ["Tree"; "ITree"; "TreeWidget"; "TreeModel"; "ITreeModel";
                   "TreeProps"] -> is_Some (bindings cc !! y)) ->
   exists s3,
     createProblemWidget defaultTreeProps MARKER_CONTEXT_MENU
       createTreeContainer (S fuel) parent s
     = Ok (Instance "ProblemWidget" (next_identity s1), s3)) /\
  (forall y, y ∈ ["Tree"; "ITree"; "TreeWidget"; "TreeModel"; "ITreeModel";
                  "TreeProps"] -> bindings cc !! y = None ->
   exists e,
     createProblemTreeContainer defaultTreeProps MARKER_CONTEXT_MENU
       createTreeContainer parent s = Err e /\
     createProblemWidget defaultTreeProps MARKER_CONTEXT_MENU
       createTreeContainer (S fuel) parent s = Err e).
Proof.
  intros Hct Hc Hpw.
  assert (Hown : forall y, own s1 child y = bindings cc !! y).
  { intros y. unfold own. by rewrite Hc. }
  unfold createProblemWidget. rewrite bind_M.
  rewrite createProblemTreeContainer_load, bind_M, Hct, bind_M. split.
  - intros Hbound.
    destruct (load_ok child
      (problem_tree_registrations defaultTreeProps MARKER_CONTEXT_MENU) s1 cc Hc)
      as [s2 Hs2].
    { apply registrations_loadable. intros y Hy. rewrite Hown. by apply Hbound. }
    destruct (load_spec _ _ _ _ _ _ Hc Hs2) as [[_ Fi _] Ho]. rewrite Hs2.
    destruct (get_class fuel child "ProblemWidget" "ProblemWidget" s2
                (defaultScope cc)) as (s3 & Hg & _).
    { rewrite Ho, Hown, Hpw. reflexivity. }
    exists s3. rewrite <- Fi. exact Hg.
  - intros y Hy Hnone.
    destruct (load child _ s1) as [[[] s2]|e] eqn:El; [|by exists e].
    apply (load_loadable _ _ _ _ _ cc Hc) in El.
    apply registrations_loadable_inv with (x := y) in El; [|done].
    rewrite Hown, Hnone in El. by destruct El.
Qed.

End Container.

Lemma createProblemTreeContainer_rebinds_witness :
  exists s2,
    createProblemTreeContainer propsFixture menuFixture
      (treeContainerFixture propsFixture) 7 parentFixture
    = Ok (childFixture.1, s2) /\
    (exists i s3, get 2 childFixture.1 "ITree" s2
                  = Ok (Instance "ProblemTree" i, s3)) /\
    containers s2 !! 7 = containers parentFixture !! 7.
Proof.
  destruct (createProblemTreeContainer_rebinds propsFixture menuFixture
    (treeContainerFixture propsFixture) 7 parentFixture childFixture.2
    childFixture.1
    {| parent := Some 7; defaultScope := Singleton;
       bindings := default ∅ (bindings <$> containers childFixture.2 !! childFixture.1) |})
    as (s2 & H1 & H2 & _ & _ & _ & _ & _ & _ & H3 & _).
  - by vm_compute.
  - by vm_compute.
  - by vm_compute.
  - reflexivity.
  - by vm_compute.
  - intros x Hx. rewrite !elem_of_cons in Hx.
    destruct Hx as [-> | [-> | [-> | [-> | [-> | [-> | Hx]]]]]];
      [by vm_compute; eexists .. | by apply elem_of_nil in Hx].
  - intros x Hx. rewrite !elem_of_cons in Hx.
    destruct Hx as [-> | [-> | [-> | Hx]]];
      [by vm_compute .. | by apply elem_of_nil in Hx].
  - exists s2. split; [exact H1 |]. split; [exact (H2 0) | exact H3].
Defined.


Lemma createProblemTreeContainer_needs_tree_bindings_witness :
  (exists s2,
     createProblemTreeContainer propsFixture menuFixture
       (treeContainerFixture propsFixture) 7 parentFixture
     = Ok (childFixture.1, s2)) <->
  (forall x, x ∈ ["Tree"; "ITree"; "TreeWidget"; "TreeModel"; "ITreeModel";
                  "TreeProps"] ->
     is_Some (default ∅ (bindings <$> containers childFixture.2 !! childFixture.1)
                !! x)).
Proof.
  apply (createProblemTreeContainer_needs_tree_bindings propsFixture menuFixture
    (treeContainerFixture propsFixture) 7 parentFixture childFixture.2
    childFixture.1
    {| parent := Some 7; defaultScope := Singleton;
       bindings := default ∅ (bindings <$> containers childFixture.2 !! childFixture.1) |}).
  - by vm_compute.
  - by vm_compute.
Defined.

Lemma createProblemTreeContainer_unbinds_tree_witness :
  exists s2,
    createProblemTreeContainer propsFixture menuFixture
      (treeContainerFixture propsFixture) 7 parentFixture
    = Ok (childFixture.1, s2) /\
    own s2 childFixture.1 "TreeWidget" = None /\
    get 2 childFixture.1 "TreeWidget" s2 = Err (NoMatchingBindings "TreeWidget").
Proof.
  destruct (createProblemTreeContainer_unbinds_tree propsFixture menuFixture
    (treeContainerFixture propsFixture) 7 parentFixture childFixture.2
    childFixture.1
    {| parent := Some 7; defaultScope := Singleton;
       bindings := default ∅ (bindings <$> containers childFixture.2 !! childFixture.1) |}
    {| parent := None; defaultScope := Transient; bindings := ∅ |}
    "TreeWidget")
    as (s2 & H1 & H2 & H3).
  - by vm_compute.
  - by vm_compute.
  - by vm_compute.
  - reflexivity.
  - by vm_compute.
  - reflexivity.
  - intros x Hx. rewrite !elem_of_cons in Hx.
    destruct Hx as [-> | [-> | [-> | [-> | [-> | [-> | Hx]]]]]];
      [by vm_compute; eexists .. | by apply elem_of_nil in Hx].
  - rewrite !elem_of_cons. auto.
  - reflexivity.
  - exists s2. split; [exact H1 |]. split; [exact H2 | exact (H3 1)].
Defined.

Lemma createProblemTreeContainer_marker_bindings_witness :
  exists s2,
    createProblemTreeContainer propsFixture menuFixture
      (treeContainerFixture propsFixture) 7 parentFixture
    = Ok (childFixture.1, s2) /\
    (exists s3, get 1 childFixture.1 "MarkerOptions" s2
                = Ok (Constant {[ "kind" := JString "problem" ]}, s3)) /\
    (exists i s3, get 1 childFixture.1 "MarkerTreeServices" s2
                  = Ok (Instance "MarkerTreeServices" i, s3)).
Proof.
  destruct (createProblemTreeContainer_marker_bindings propsFixture menuFixture
    (treeContainerFixture propsFixture) 7 parentFixture childFixture.2
    childFixture.1
    {| parent := Some 7; defaultScope := Singleton;
       bindings := default ∅ (bindings <$> containers childFixture.2 !! childFixture.1) |})
    as (s2 & H1 & H2 & H3).
  - by vm_compute.
  - by vm_compute.
  - intros x Hx. rewrite !elem_of_cons in Hx.
    destruct Hx as [-> | [-> | [-> | [-> | [-> | [-> | Hx]]]]]];
      [by vm_compute; eexists .. | by apply elem_of_nil in Hx].
  - by vm_compute.
  - by vm_compute.
  - exists s2. split; [exact H1 |]. split; [exact (H2 0) | exact (H3 0)].
Defined.


Lemma createProblemWidget_new_widget_witness :
  exists s3,
    createProblemWidget propsFixture menuFixture
      (treeContainerFixture propsFixture) 1 7 parentFixture
    = Ok (Instance "ProblemWidget" (next_identity childFixture.2), s3).
Proof.
  apply (createProblemWidget_new_widget propsFixture menuFixture
    (treeContainerFixture propsFixture) 0 7 parentFixture childFixture.2
    childFixture.1
    {| parent := Some 7; defaultScope := Singleton;
       bindings := default ∅ (bindings <$> containers childFixture.2 !! childFixture.1) |}).
  - by vm_compute.
  - by vm_compute.
  - by vm_compute.
  - intros x Hx. rewrite !elem_of_cons in Hx.
    destruct Hx as [-> | [-> | [-> | [-> | [-> | [-> | Hx]]]]]];
      [by vm_compute; eexists .. | by apply elem_of_nil in Hx].
Defined.

End ProblemFacts.

(** ** The monaco editor provider *)

Module EditorProviderFacts.
Import Js EditorProvider.

Lemma run_snoc (uri : string) (w : world) (events : list event) (e : event) :
  run uri w (events ++ [e]) = step uri (run uri w events) e.
Proof. unfold run. by rewrite foldl_app. Qed.

Lemma returned_happen (e : event) (w : world) :
  returned (happen e w) = returned w.
Proof. by destruct e. Qed.

Lemma returned_step (uri : string) (w : world) (e : event) :
  returned (step uri w e) =
    settle (returned w)
      (get (editorPreferences (step uri w e)) uri
         (referencePromise (step uri w e)) (prefPromise (step uri w e))).
Proof. unfold step. cbn. by rewrite returned_happen. Qed.

(** [get] is fulfilled only from two fulfilled promises, with the editor
    made from the reference and the preferences. *)
Lemma get_fulfilled (prefs : gmap string jsval) (uri : string)
    (p : promise Reference) (q : promise unit) (editor : MonacoEditor) :
  get prefs uri p q = Fulfilled editor ->
  exists reference,
    p = Fulfilled reference /\ q = Fulfilled tt /\
    editor = {| editor_uri := uri;
                editor_options := getEditorOptions prefs (object reference);
                model_tabSize := getModelOptions prefs |}.
Proof.
  unfold get. destruct p as [|r|e], q as [|[]|e']; cbn; try done.
  intros [= <-]. by exists r.
Qed.

(** A settled promise stays as it is. *)
Lemma settle_settled {A} (p q : promise A) : p ≠ Pending -> settle p q = p.
Proof. by destruct p. Qed.

Lemma step_sources_settled (uri : string) (w : world) (e : event) :
  (referencePromise w ≠ Pending ->
     referencePromise (step uri w e) = referencePromise w) /\
  (prefPromise w ≠ Pending -> prefPromise (step uri w e) = prefPromise w).
Proof. split; intros H; destruct e; cbn; by rewrite ?settle_settled. Qed.

(** C7. When the promise returned by [get(uri)] is fulfilled, there is a
    turn before which it was pending and at which it was fulfilled; at that
    turn the model reference has been created and the preferences are
    ready, and the editor is made for [uri] with the options [readOnly] of
    the model, [wordWrap] ['off'], [folding] and [glyphMargin] enabled, and
    the values that the preferences ['editor.lineNumbers'] and
    ['editor.renderWhitespace'] have at that turn. *)
Theorem get_resolves_after_reference_and_preferences
    (uri : string) (w0 : world) (events : list event) (editor : MonacoEditor) :
  returned w0 = Pending ->
  returned (run uri w0 events) = Fulfilled editor ->
  exists before e after reference,
    events = before ++ e :: after /\
    returned (run uri w0 before) = Pending /\
    returned (run uri w0 (before ++ [e])) = Fulfilled editor /\
    referencePromise (run uri w0 (before ++ [e])) = Fulfilled reference /\
    prefPromise (run uri w0 (before ++ [e])) = Fulfilled tt /\
    editor_uri editor = uri /\
    editor_options editor =
      {| opt_model := textEditorModel (object reference);
         opt_wordWrap := "off";
         opt_folding := true;
         opt_lineNumbers :=
           editorPreferences (run uri w0 (before ++ [e])) !! "editor.lineNumbers";
         opt_renderWhitespace :=
           editorPreferences (run uri w0 (before ++ [e]))
             !! "editor.renderWhitespace";
         opt_glyphMargin := true;
         opt_readOnly := readOnly (object reference) |}.
Proof.
  intros H0. induction events as [|e events IH] using rev_ind.
  - cbn. by rewrite H0.
  - rewrite run_snoc, returned_step.
    destruct (returned (run uri w0 events)) as [|editor'|reason] eqn:E;
      cbn [settle]; [| |done].
    + intros (reference & Hp & Hq & ->)%get_fulfilled.
      exists events, e, [], reference.
      rewrite run_snoc, returned_step, E. cbn [settle].
      rewrite Hp, Hq. done.
    + intros [= ->].
      destruct (IH eq_refl) as (before & e0 & after & reference & -> & H).
      exists before, e0, (after ++ [e]), reference.
      by rewrite <- app_assoc.
Qed.


Lemma get_rejected (prefs : gmap string jsval) (uri : string)
    (p : promise Reference) (q : promise unit) (reason : string) :
  get prefs uri p q = Rejected reason ->
  p = Rejected reason \/ q = Rejected reason.
Proof.
  unfold get. destruct p as [|r|e], q as [|[]|e']; cbn; try done;
    intros [= ->]; auto.
Qed.

(** The returned promise is rejected only when one of the two is. *)
Lemma returned_rejected (uri : string) (w0 : world) (events : list event) reason :
  returned w0 = Pending ->
  returned (run uri w0 events) = Rejected reason ->
  referencePromise (run uri w0 events) = Rejected reason \/
  prefPromise (run uri w0 events) = Rejected reason.
Proof.
  intros H0. induction events as [|e events IH] using rev_ind.
  - cbn. by rewrite H0.
  - rewrite run_snoc, returned_step.
    destruct (step_sources_settled uri (run uri w0 events) e) as [Sp Sq].
    destruct (returned (run uri w0 events)) as [|editor'|reason'] eqn:E;
      cbn [settle]; [|done|].
    + apply get_rejected.
    + intros [= ->]. destruct (IH eq_refl) as [H | H].
      * left. rewrite Sp; [done | by rewrite H].
      * right. rewrite Sq; [done | by rewrite H].
Qed.

(** Conversely, after a turn at which both promises are fulfilled the
    returned promise is fulfilled. *)
Lemma get_resolves_when_both (uri : string) (w0 : world)
    (events : list event) (e : event) (reference : Reference) :
  returned w0 = Pending ->
  referencePromise (run uri w0 (events ++ [e])) = Fulfilled reference ->
  prefPromise (run uri w0 (events ++ [e])) = Fulfilled tt ->
  exists editor, returned (run uri w0 (events ++ [e])) = Fulfilled editor.
Proof.
  intros H0 Hp Hq. rewrite run_snoc in *. rewrite returned_step, Hp, Hq.
  destruct (step_sources_settled uri (run uri w0 events) e) as [Sp Sq].
  destruct (returned (run uri w0 events)) as [|editor'|reason] eqn:E;
    cbn [settle]; [by eexists | by eexists |].
  destruct (returned_rejected uri w0 events reason H0 E) as [H | H].
  - rewrite Sp in Hp; [congruence | by rewrite H].
  - rewrite Sq in Hq; [congruence | by rewrite H].
Qed.

Lemma get_resolves_after_reference_and_preferences_witness :
  returned worldFixture = Pending /\
  exists editor,
    returned (run "file:///a.ts" worldFixture eventsFixture) = Fulfilled editor /\
    editor_uri editor = "file:///a.ts" /\
    opt_wordWrap (editor_options editor) = "off" /\
    opt_folding (editor_options editor) = true /\
    opt_glyphMargin (editor_options editor) = true.
Proof.
  split; [reflexivity |].
  destruct (returned (run "file:///a.ts" worldFixture eventsFixture))
    as [|editor|reason] eqn:E;
    [by vm_compute in E | | by vm_compute in E].
  exists editor. split; [done |].
  destruct (get_resolves_after_reference_and_preferences
              "file:///a.ts" worldFixture eventsFixture editor eq_refl E)
    as (before & e & after & reference & _ & _ & _ & _ & _ & Hu & Ho).
  rewrite Ho. by split.
Defined.

(** The run of the fixture: the editor is made at the third turn, with the
    preferences as they are then. *)
Example get_editor_after_preference_change :
  returned (run "file:///a.ts" worldFixture eventsFixture)
  = Fulfilled
      {| editor_uri := "file:///a.ts";
         editor_options :=
           {| opt_model := 1; opt_wordWrap := "off"; opt_folding := true;
              opt_lineNumbers := Some (JString "off");
              opt_renderWhitespace := None;
              opt_glyphMargin := true; opt_readOnly := true |};
         model_tabSize := None |}.
Proof. by vm_compute. Qed.

(** *** Preference changes after the editor is made *)

Lemma modelOptions_lookup (name : string) :
  modelOptions !! name =
    if decide (name = "editor.tabSize") then Some "tabSize" else None.
Proof.
  unfold modelOptions. case_decide as E.
  - subst. by rewrite lookup_singleton_eq.
  - by rewrite lookup_singleton_ne.
Qed.

Lemma editorOptions_lookup (name : string) :
  editorOptions !! name =
    if decide (name = "editor.lineNumbers") then Some "lineNumbers"
    else if decide (name = "editor.renderWhitespace")
         then Some "renderWhitespace" else None.
Proof.
  unfold editorOptions. repeat case_decide; subst.
  - by rewrite lookup_insert_eq.
  - rewrite lookup_insert_ne by done. by rewrite lookup_singleton_eq.
  - rewrite lookup_insert_ne by done. by rewrite lookup_singleton_ne.
Qed.

(** The editor that the callback of [get] makes. *)
Lemma get_both_fulfilled (prefs : gmap string jsval) (uri : string)
    (reference : Reference) :
  get prefs uri (Fulfilled reference) (Fulfilled tt) =
    Fulfilled {| editor_uri := uri;
                 editor_options := getEditorOptions prefs (object reference);
                 model_tabSize := getModelOptions prefs |}.
Proof. reflexivity. Qed.

Lemma updateOptions_made (prefs : gmap string jsval) (uri : string)
    (model : MonacoEditorModel) (change : EditorPreferenceChange) :
  updateOptions change
    {| editor_uri := uri; editor_options := getEditorOptions prefs model;
       model_tabSize := getModelOptions prefs |}
  = {| editor_uri := uri;
       editor_options := getEditorOptions (changed prefs change) model;
       model_tabSize := getModelOptions (changed prefs change) |}.
Proof.
  destruct change as [name value].
  unfold updateOptions, changed, getEditorOptions, getModelOptions.
  cbn [preferenceName newValue].
  rewrite modelOptions_lookup, editorOptions_lookup.
  destruct (decide (name = "editor.tabSize")) as [-> | N1].
  { rewrite lookup_insert_eq. rewrite !lookup_insert_ne by done. done. }
  destruct (decide (name = "editor.lineNumbers")) as [-> | N2].
  { rewrite lookup_insert_eq. rewrite !lookup_insert_ne by done. done. }
  destruct (decide (name = "editor.renderWhitespace")) as [-> | N3].
  { rewrite lookup_insert_eq. rewrite !lookup_insert_ne by done. done. }
  by rewrite !lookup_insert_ne.
Qed.

(** X8. [updateOptions] keeps an open editor in step with the preferences:
    an editor made by [get] and then updated for each of a sequence of
    preference changes has the options and the tab size of an editor that
    [get] makes after those changes. *)
Theorem updateOptions_follows_preferences (prefs : gmap string jsval)
    (uri : string) (reference : Reference)
    (changes : list EditorPreferenceChange) :
  then_ (get prefs uri (Fulfilled reference) (Fulfilled tt))
        (fun editor => foldl (fun e change => updateOptions change e)
                             editor changes)
  = get (foldl changed prefs changes) uri (Fulfilled reference) (Fulfilled tt).
Proof.
  rewrite !get_both_fulfilled. cbn [then_]. f_equal.
  revert prefs. induction changes as [|change changes IH]; intros prefs; [done |].
  cbn [foldl]. by rewrite updateOptions_made, IH.
Qed.

(** X9. [updateOptions] changes nothing but the tab size of the model and
    the options [lineNumbers] and [renderWhitespace]: a change of
    ['editor.tabSize'] leaves the editor options as they are, a change of one
    of the other two leaves the model as it is, and a change of any other
    preference leaves the editor as it is. *)
Theorem updateOptions_frame (change : EditorPreferenceChange)
    (editor : MonacoEditor) :
  editor_uri (updateOptions change editor) = editor_uri editor /\
  (preferenceName change = "editor.tabSize" ->
     editor_options (updateOptions change editor) = editor_options editor /\
     model_tabSize (updateOptions change editor) = Some (newValue change)) /\
  (preferenceName change ≠ "editor.tabSize" ->
     model_tabSize (updateOptions change editor) = model_tabSize editor) /\
  (preferenceName change ∉ ["editor.tabSize"; "editor.lineNumbers";
                            "editor.renderWhitespace"] ->
     updateOptions change editor = editor) /\
  let o := editor_options editor in
  let o' := editor_options (updateOptions change editor) in
  opt_model o' = opt_model o /\ opt_wordWrap o' = opt_wordWrap o /\
  opt_folding o' = opt_folding o /\ opt_glyphMargin o' = opt_glyphMargin o /\
  opt_readOnly o' = opt_readOnly o.
Proof.
  destruct change as [name value]. unfold updateOptions.
  cbn [preferenceName newValue].
  rewrite modelOptions_lookup, editorOptions_lookup.
  destruct (decide (name = "editor.tabSize")) as [-> | N1].
  { rewrite !decide_False by done. cbn. repeat split; try done.
    intros H. destruct H. repeat constructor. }
  destruct (decide (name = "editor.lineNumbers")) as [-> | N2].
  { cbn. repeat split; try done.
    intros H. destruct H. repeat constructor. }
  destruct (decide (name = "editor.renderWhitespace")) as [-> | N3].
  { cbn. repeat split; try done.
    intros H. destruct H. repeat constructor. }
  cbn. repeat split; done.
Qed.

Lemma get_pending_iff (prefs : gmap string jsval) (uri : string)
    (p : promise Reference) (q : promise unit) :
  get prefs uri p q = Pending <-> Promise_all p q = Pending.
Proof. unfold get. by destruct (Promise_all p q). Qed.

(** Once [Promise.all] of two promises is settled, it stays so. *)
Lemma Promise_all_settled {A B} (p p' : promise A) (q q' : promise B) :
  (p ≠ Pending -> p' = p) -> (q ≠ Pending -> q' = q) ->
  Promise_all p q ≠ Pending -> Promise_all p' q' ≠ Pending.
Proof.
  intros Hp Hq. destruct p as [|a|x], q as [|b|y]; cbn; intros H; try done;
    try (rewrite Hp by done); try (rewrite Hq by done);
    try done; by destruct p', q'.
Qed.

Lemma all_settled_step (uri : string) (w : world) (e : event) :
  Promise_all (referencePromise w) (prefPromise w) ≠ Pending ->
  Promise_all (referencePromise (step uri w e)) (prefPromise (step uri w e))
  ≠ Pending.
Proof.
  destruct (step_sources_settled uri w e) as [Sp Sq].
  by apply Promise_all_settled.
Qed.

(** X10. After any turn, the promise that [get] returned is pending
    exactly when [Promise.all] of the two promises is: it is settled at the
    very turn at which both are fulfilled or one of them is rejected. *)
Theorem returned_pending_iff (uri : string) (w0 : world)
    (events : list event) (e : event) :
  returned w0 = Pending ->
  (returned (run uri w0 (events ++ [e])) = Pending <->
   Promise_all (referencePromise (run uri w0 (events ++ [e])))
               (prefPromise (run uri w0 (events ++ [e]))) = Pending).
Proof.
  intros H0. revert e. induction events as [|e' events IH] using rev_ind;
    intros e.
  - cbn [app run foldl]. rewrite returned_step, H0. cbn [settle].
    apply get_pending_iff.
  - rewrite run_snoc, returned_step. specialize (IH e').
    pose proof (all_settled_step uri (run uri w0 (events ++ [e'])) e) as Hs.
    destruct (returned (run uri w0 (events ++ [e']))) as [|editor|reason] eqn:E;
      cbn [settle].
    + apply get_pending_iff.
    + split; [done |]. intros H. exfalso. apply Hs; [|done].
      intros Hp. by apply IH in Hp.
    + split; [done |]. intros H. exfalso. apply Hs; [|done].
      intros Hp. by apply IH in Hp.
Qed.

Lemma returned_pending_iff_witness :
  returned worldFixture = Pending /\
  returned (run "file:///a.ts" worldFixture ([PreferencesReady] ++ [Tick]))
  = Pending.
Proof.
  split; [reflexivity |].
  apply (returned_pending_iff "file:///a.ts" worldFixture [PreferencesReady] Tick);
    reflexivity.
Defined.

(** X11. Closing quick open always clears the decorations and focuses the
    editor. When it was canceled and the editor had a selection when it was
    opened, that selection is put back and revealed, whatever quick open did
    in between; otherwise the selection is the one quick open left. *)
Theorem quick_open_close (during : Control -> Control) (canceled : bool)
    (control : Control) :
  decorations (quick_open_run during canceled control) = false /\
  focused (quick_open_run during canceled control) = true /\
  selection (quick_open_run during canceled control) =
    match canceled, selection control with
    | true, Some range => Some range
    | _, _ => selection (during control)
    end /\
  (canceled = false ->
   revealed (quick_open_run during canceled control) = revealed (during control)).
Proof.
  unfold quick_open_run, onClose.
  destruct canceled, (selection control) as [range|]; cbn; by repeat split.
Qed.

End EditorProviderFacts.

(** ** The application project installer *)

Module AppProjectFacts.
Import AppProject.

Lemma declared_lookup (p : Project) (extension : string) :
  declared p !! extension =
    match theia_package p !! extension with
    | Some version =>
        Some match localDependencies p !! extension with
             | Some path => Linked path
             | None => Installed version
             end
    | None => None
    end.
Proof.
  unfold declared. rewrite map_lookup_imap.
  by destruct (theia_package p !! extension).
Qed.

(** After reconciliation the directory holds the wanted entries and no
    other. *)
Lemma reconcile_lookup (wanted on_disk : gmap string resolution)
    (extension : string) :
  reconcile wanted on_disk !! extension = wanted !! extension.
Proof.
  unfold reconcile. destruct (wanted !! extension) as [r|] eqn:E.
  - by apply lookup_union_Some_l.
  - apply lookup_union_None. split; [done |].
    apply map_lookup_filter_None. right. intros r _ [r' H]. cbn in H.
    congruence.
Qed.

(** A run fires [onWillInstall], then [onDidInstall]; it succeeds when both
    external programs do. *)
Lemma install_events (packageManager webpack : bool) (p : Project) :
  (install packageManager webpack p).1 =
    [WillInstall; DidInstall (negb (packageManager && webpack))].
Proof. unfold install. by destruct packageManager, webpack. Qed.

Lemma install_succeeded (packageManager webpack : bool) (p : Project) :
  didInstall (install packageManager webpack p).1 = Some false ->
  packageManager = true /\ webpack = true.
Proof. rewrite install_events. by destruct packageManager, webpack. Qed.

(** C1. After an installation run that completed successfully, the
    generated package.json and node_modules hold exactly the declared
    extensions: an extension declared in theia.package.json is among the
    dependencies of package.json and present under node_modules, an
    extension that is not declared is in neither. *)
Theorem install_exactly_declared
    (packageManager webpack : bool) (p : Project) (extension : string) :
  didInstall (install packageManager webpack p).1 = Some false ->
  exists dependencies,
    package_json (install packageManager webpack p).2 = Some dependencies /\
    (is_Some (theia_package p !! extension) ->
       is_Some (dependencies !! extension) /\
       is_Some (node_modules (install packageManager webpack p).2 !! extension)) /\
    (theia_package p !! extension = None ->
       dependencies !! extension = None /\
       node_modules (install packageManager webpack p).2 !! extension = None).
Proof.
  intros [-> ->]%install_succeeded. exists (theia_package p). cbn.
  rewrite reconcile_lookup, declared_lookup. split; [done |].
  destruct (theia_package p !! extension) as [version|].
  - split; [|done]. intros _. split; by eexists.
  - split; [|done]. by intros [? ?].
Qed.

Lemma install_exactly_declared_witness :
  didInstall (install true true installFixture).1 = Some false /\
  exists dependencies,
    package_json (install true true installFixture).2 = Some dependencies /\
    is_Some (dependencies !! "@theia/core") /\
    is_Some (node_modules (install true true installFixture).2 !! "@theia/core").
Proof.
  split; [reflexivity |].
  destruct (install_exactly_declared true true installFixture "@theia/core"
              eq_refl) as (dependencies & H1 & H2 & _).
  exists dependencies. split; [exact H1 |]. apply H2. by vm_compute; eexists.
Defined.

(** C2. An extension that is declared in theia.package.json and has an
    entry in [localDependencies] is linked by a successful installation: it
    is among the dependencies of the generated package.json and under
    node_modules, as a link to the local path. When theia.package.json is
    then written without it, the next successful installation unlinks it: it
    is in neither. *)
Theorem install_links_local
    (packageManager webpack : bool) (p : Project) (extension path : string) :
  didInstall (install packageManager webpack p).1 = Some false ->
  is_Some (theia_package p !! extension) ->
  localDependencies p !! extension = Some path ->
  (exists dependencies,
     package_json (install packageManager webpack p).2 = Some dependencies /\
     is_Some (dependencies !! extension)) /\
  node_modules (install packageManager webpack p).2 !! extension
    = Some (Linked path) /\
  forall (packageManager' webpack' : bool) (remaining : gmap string string),
    remaining !! extension = None ->
    didInstall (install packageManager' webpack'
                  (writeTheiaPackage remaining
                     (install packageManager webpack p).2)).1 = Some false ->
    (exists dependencies,
       package_json (install packageManager' webpack'
                       (writeTheiaPackage remaining
                          (install packageManager webpack p).2)).2
         = Some dependencies /\
       dependencies !! extension = None) /\
    node_modules (install packageManager' webpack'
                    (writeTheiaPackage remaining
                       (install packageManager webpack p).2)).2 !! extension
      = None.
Proof.
  intros [-> ->]%install_succeeded [version Hv] Hl. cbn.
  rewrite reconcile_lookup, declared_lookup, Hv, Hl.
  split; [by exists (theia_package p) |]. split; [done |].
  intros pm wp remaining Hr [-> ->]%install_succeeded. cbn.
  rewrite reconcile_lookup, declared_lookup. cbn. rewrite Hr.
  split; [by exists remaining | done].
Qed.

Lemma install_links_local_witness :
  didInstall (install true true installLocalFixture).1 = Some false /\
  node_modules (install true true installLocalFixture).2 !! "@theia/filesystem"
    = Some (Linked "../../../filesystem") /\
  node_modules
    (install true true
       (writeTheiaPackage {[ "@theia/core" := "0.1.1" ]}
          (install true true installLocalFixture).2)).2 !! "@theia/filesystem"
    = None.
Proof.
  split; [reflexivity |].
  destruct (install_links_local true true installLocalFixture
              "@theia/filesystem" "../../../filesystem" eq_refl)
    as (_ & H2 & H3); [by vm_compute; eexists | by vm_compute |].
  split; [exact H2 |].
  destruct (H3 true true {[ "@theia/core" := "0.1.1" ]}) as [_ H4];
    [by vm_compute | reflexivity | exact H4].
Defined.

(** C3. In every installation run [onWillInstall] fires before
    [onDidInstall], and when [onDidInstall] reports [failed = false] the
    frontend has been rebuilt: lib/bundle.js exists. *)
Theorem install_rebuilds (packageManager webpack : bool) (p : Project) :
  exists failed,
    (install packageManager webpack p).1 = [WillInstall; DidInstall failed] /\
    (failed = false -> bundle (install packageManager webpack p).2 = true).
Proof.
  exists (negb (packageManager && webpack)). split; [apply install_events |].
  by destruct packageManager, webpack.
Qed.

(** The two tests, run on the model. *)
Example test_install :
  let '(events1, p1) := install true true installFixture in
  let '(events2, p2) :=
    install true true (writeTheiaPackage {[ "@theia/core" := "0.1.1" ]} p1) in
  assertInstallation
    {| added := Some ["@theia/core"; "@theia/filesystem"]; removed := None;
       linked := None; unlinked := None |} events1 p1 = true /\
  assertInstallation
    {| added := Some ["@theia/core"]; removed := Some ["@theia/filesystem"];
       linked := None; unlinked := None |} events2 p2 = true.
Proof. by vm_compute. Qed.

Example test_install_local :
  let '(events1, p1) := install true true installLocalFixture in
  let '(events2, p2) :=
    install true true (writeTheiaPackage {[ "@theia/core" := "0.1.1" ]} p1) in
  assertInstallation
    {| added := None; removed := None;
       linked := Some ["@theia/core"; "@theia/filesystem"];
       unlinked := None |} events1 p1 = true /\
  assertInstallation
    {| added := None; removed := None; linked := Some ["@theia/core"];
       unlinked := Some ["@theia/filesystem"] |} events2 p2 = true.
Proof. by vm_compute. Qed.


(** ** What [assertInstallation] can tell *)

Lemma present_not_absent (p : Project) (extension : string) :
  generated_and_present p extension = true ->
  not_generated_and_absent p extension = false.
Proof.
  unfold generated_and_present, not_generated_and_absent.
  destruct (package_json p); [|done].
  intros [-> _]%andb_prop. done.
Qed.

(** X19. [assertInstallation] checks the [linked] extensions exactly as the
    [added] ones and the [unlinked] exactly as the [removed] ones: the
    verdict stays the same when the lists change places, so the test
    cannot tell a link from an installed copy. *)
Theorem assertInstallation_linked_as_added
    (a r l u : option (list string)) (events : list InstallEvent)
    (p : Project) :
  assertInstallation
    {| added := a; removed := r; linked := l; unlinked := u |} events p =
  assertInstallation
    {| added := l; removed := u; linked := a; unlinked := r |} events p.
Proof.
  unfold assertInstallation. cbn [added removed linked unlinked].
  destruct (willInstall events); [|done].
  destruct (didInstall events) as [failed|]; [|done].
  cbn [andb]. f_equal. f_equal.
  destruct (bool_decide _); [|done]. cbn [andb].
  destruct (forallb (generated_and_present p) (default [] a)),
           (forallb (not_generated_and_absent p) (default [] r)),
           (forallb (generated_and_present p) (default [] l)),
           (forallb (not_generated_and_absent p) (default [] u)); done.
Qed.

(** X20. An expectation that names one extension both among the [added] or
    [linked] and among the [removed] or [unlinked] fails on every
    project. *)
Theorem assertInstallation_contradictory
    (expectation : Expectation) (events : list InstallEvent) (p : Project)
    (extension : string) :
  extension ∈ default [] (added expectation) ++ default [] (linked expectation) ->
  extension ∈ default [] (removed expectation)
              ++ default [] (unlinked expectation) ->
  assertInstallation expectation events p = false.
Proof.
  intros Hin Hout. apply not_true_is_false. unfold assertInstallation.
  intros [_ H]%andb_prop.
  destruct (didInstall events) as [failed|]; [|done].
  apply andb_prop in H as [H _]. apply andb_prop in H as [H _].
  apply andb_prop in H as [H Hu]. apply andb_prop in H as [H Hl].
  apply andb_prop in H as [H Hr]. apply andb_prop in H as [_ Ha].
  rewrite forallb_forall in Ha, Hr, Hl, Hu.
  assert (generated_and_present p extension = true) as Hp.
  { apply elem_of_app in Hin as [Hin | Hin];
      apply list_elem_of_In in Hin; auto. }
  assert (not_generated_and_absent p extension = true) as Hq.
  { apply elem_of_app in Hout as [Hout | Hout];
      apply list_elem_of_In in Hout; auto. }
  apply present_not_absent in Hp. congruence.
Qed.

Lemma assertInstallation_contradictory_witness :
  assertInstallation
    {| added := Some ["@theia/core"]; removed := None; linked := None;
       unlinked := Some ["@theia/filesystem"; "@theia/core"] |}
    (install true true installFixture).1 (install true true installFixture).2
  = false.
Proof.
  apply (assertInstallation_contradictory _ _ _ "@theia/core").
  - cbn. rewrite !elem_of_cons. auto.
  - cbn. rewrite !elem_of_cons. auto.
Defined.

End AppProjectFacts.
